(** * use-qs: a query-string codec, embedded and verified

    The development follows the single source module of the library (the
    functions [isEncoded], [transformKey], [reverseTransformKey], [addPrefix],
    [removePrefix], [shouldOmitValue], [parse] and [stringify]).  The
    JavaScript built-ins and the lodash helpers the module imports are given
    first, in the modules [JS], [Json], [Uri] and [Lodash]; the case
    converters of lodash ([camelCase], [snakeCase], [kebabCase]) are taken as
    parameters of the section that holds the module's own functions.

    Strings are byte strings: a JavaScript string is represented by its UTF-8
    encoding, so that every ASCII character of the wire format (the
    separators, brackets, digits and percent escapes) is one character here. *)

From Stdlib Require Import String Ascii List ZArith NArith Lia Bool Arith.
From Stdlib Require Import DecimalString DecimalN DecimalNat DecimalFacts.
Import ListNotations.
Open Scope string_scope.

(** ** String primitives of the host language *)

Module JS.

Definition isDigit (c : ascii) : bool :=
  let n := nat_of_ascii c in (48 <=? n)%nat && (n <=? 57)%nat.

(** [s.split(sep)] for a one-character separator: never the empty list. *)
Fixpoint split (sep : ascii) (s : string) : list string :=
  match s with
  | EmptyString => [EmptyString]
  | String c s' =>
      if Ascii.eqb c sep then EmptyString :: split sep s'
      else match split sep s' with
           | x :: xs => String c x :: xs
           | [] => [String c EmptyString]
           end
  end.

(** [parts.join(sep)] *)
Fixpoint join (sep : string) (parts : list string) : string :=
  match parts with
  | [] => EmptyString
  | [x] => x
  | x :: xs => x ++ sep ++ join sep xs
  end.

(** [startsWith(s, p)] *)
Fixpoint startsWith (s p : string) : bool :=
  match p, s with
  | EmptyString, _ => true
  | String _ _, EmptyString => false
  | String a p', String b s' => Ascii.eqb a b && startsWith s' p'
  end.

Fixpoint rev_string (s acc : string) : string :=
  match s with
  | EmptyString => acc
  | String c s' => rev_string s' (String c acc)
  end.

(** [endsWith(s, p)] *)
Definition endsWith (s p : string) : bool :=
  startsWith (rev_string s EmptyString) (rev_string p EmptyString).

(** [s.slice(n)] for [0 <= n] *)
Fixpoint drop (n : nat) (s : string) : string :=
  match n, s with
  | O, _ => s
  | S _, EmptyString => EmptyString
  | S n', String _ s' => drop n' s'
  end.

Fixpoint take (n : nat) (s : string) : string :=
  match n, s with
  | O, _ => EmptyString
  | S _, EmptyString => EmptyString
  | S n', String c s' => String c (take n' s')
  end.

(** [s.slice(from, -back)]: from index [from] up to [back] characters before
    the end (the empty string when the two cross). *)
Definition slice_between (from back : nat) (s : string) : string :=
  take (String.length s - back - from) (drop from s).

(** [trimStart(s, c)] of lodash with a one-character set: every leading
    occurrence of [c] goes. *)
Fixpoint trimStart (c : ascii) (s : string) : string :=
  match s with
  | EmptyString => EmptyString
  | String a s' => if Ascii.eqb a c then trimStart c s' else s
  end.

Definition trimEnd (c : ascii) (s : string) : string :=
  rev_string (trimStart c (rev_string s EmptyString)) EmptyString.

(** [trim(s, c)] of lodash with a one-character set. *)
Definition trim (c : ascii) (s : string) : string :=
  trimEnd c (trimStart c s).

Fixpoint existsb_string (p : ascii -> bool) (s : string) : bool :=
  match s with
  | EmptyString => false
  | String c s' => p c || existsb_string p s'
  end.

Definition isEmptyString (s : string) : bool :=
  match s with EmptyString => true | _ => false end.

(** The regular expression [/\[(\d+)\]/g].  The scanner keeps, in [st], the
    digits read since an opening bracket that may still turn into a match;
    a match needs at least one digit and the closing bracket right after the
    digits, so a failed attempt restarts one character after its bracket,
    where the digits already read cannot start a match. *)
Fixpoint replaceIndexGroups (s : string) (st : option string) : string :=
  match s with
  | EmptyString =>
      match st with
      | None => EmptyString
      | Some ds => String "[" ds
      end
  | String c s' =>
      match st with
      | None =>
          if Ascii.eqb c "[" then replaceIndexGroups s' (Some EmptyString)
          else String c (replaceIndexGroups s' None)
      | Some ds =>
          if isDigit c then replaceIndexGroups s' (Some (ds ++ String c EmptyString))
          else if Ascii.eqb c "]" && negb (isEmptyString ds)
               then String "." ds ++ replaceIndexGroups s' None
          else String "[" ds ++
               (if Ascii.eqb c "[" then replaceIndexGroups s' (Some EmptyString)
                else String c (replaceIndexGroups s' None))
      end
  end.

(** [s.match(/\[(\d+)\]/g)] is not null *)
Fixpoint hasIndexGroup (s : string) (st : option string) : bool :=
  match s with
  | EmptyString => false
  | String c s' =>
      match st with
      | None =>
          if Ascii.eqb c "[" then hasIndexGroup s' (Some EmptyString)
          else hasIndexGroup s' None
      | Some ds =>
          if isDigit c then hasIndexGroup s' (Some (ds ++ String c EmptyString))
          else if Ascii.eqb c "]" && negb (isEmptyString ds) then true
          else if Ascii.eqb c "[" then hasIndexGroup s' (Some EmptyString)
          else hasIndexGroup s' None
      end
  end.

End JS.

(** ** Values *)

(** A number is kept as the decimal expansion that [Number.prototype.toString]
    prints: [Finite neg m e] is [(-1)^neg * m * 10^e] with [m] not divisible
    by ten ([m = 0] has [e = 0]).  Every finite double has exactly one such
    shortest expansion.  The rounding of a literal that has more significant
    digits than a double holds is not represented. *)
Inductive number : Type :=
| NaN
| Infinity (neg : bool)
| Finite (neg : bool) (m : N) (e : Z).

(** The values the codec handles.  A hole of a sparse array reads as
    [VUndefined].  [VObject] lists own enumerable properties in enumeration
    order; [VDate] holds the time value in milliseconds ([None] for an
    invalid date); [VMap] and [VSet] list their entries in insertion order. *)
#[local] Unset Elimination Schemes.
Inductive Value : Type :=
| VUndefined
| VNull
| VBool (b : bool)
| VNumber (n : number)
| VString (s : string)
| VDate (t : option Z)
| VArray (items : list Value)
| VObject (entries : list (string * Value))
| VMap (pairs : list (Value * Value))
| VSet (elems : list Value).
#[local] Set Elimination Schemes.

Inductive error : Type := SyntaxError | URIError | TypeError | RangeError.

(** How a call ends.  [Exotic] marks behaviour outside the tree model of
    [Value]: a property stored on an array, a Map, a Set, a Date or on a
    function inherited from a prototype, or a coercion that is not modelled.
    Nothing is proved about a call that ends so. *)
Inductive outcome (A : Type) : Type :=
| Returns (a : A)
| Throws (e : error)
| Exotic.

Arguments Returns {A} a.
Arguments Throws {A} e.
Arguments Exotic {A}.

Definition bind {A B : Type} (c : outcome A) (k : A -> outcome B) : outcome B :=
  match c with
  | Returns a => k a
  | Throws e => Throws e
  | Exotic => Exotic
  end.

Notation "x <- c ;; k" := (bind c (fun x => k))
  (at level 61, c at next level, right associativity).

Fixpoint mapM {A B : Type} (f : A -> outcome B) (l : list A) : outcome (list B) :=
  match l with
  | [] => Returns []
  | a :: l' => b <- f a ;; bs <- mapM f l' ;; Returns (b :: bs)
  end.

(** ** Numbers and their decimal text *)

Module Num.

Definition digitsOfN (n : N) : string :=
  NilZero.string_of_uint (N.to_uint n).

Definition digitsOfNat (n : nat) : string :=
  NilZero.string_of_uint (Nat.to_uint n).

Fixpoint allDigits (s : string) : bool :=
  match s with
  | EmptyString => true
  | String c s' => JS.isDigit c && allDigits s'
  end.

(** The value of a run of decimal digits (leading zeros allowed). *)
Definition natOfDigit (c : ascii) : N := N.of_nat (nat_of_ascii c - 48).

Fixpoint valueOfDigits (s : string) (acc : N) : N :=
  match s with
  | EmptyString => acc
  | String c s' => valueOfDigits s' (10 * acc + natOfDigit c)%N
  end.

(** lodash's [reIsUint]: a lone zero, or a non-zero digit followed by digits. *)
Definition isCanonicalUint (s : string) : bool :=
  match s with
  | EmptyString => false
  | String "0" EmptyString => true
  | String "0" _ => false
  | _ => allDigits s
  end.

Fixpoint stripZeros (fuel : nat) (m : N) (e : Z) : N * Z :=
  match fuel with
  | O => (m, e)
  | S fuel' =>
      if (m =? 0)%N then (0%N, 0%Z)
      else if (m mod 10 =? 0)%N then stripZeros fuel' (m / 10)%N (e + 1)%Z
      else (m, e)
  end.

(** The canonical form of [(-1)^neg * m * 10^e]. *)
Definition normalize (neg : bool) (m : N) (e : Z) : number :=
  let '(m', e') := stripZeros (S (N.to_nat (N.log2 m))) m e in
  Finite neg m' e'.

Definition ofN (n : N) : number := normalize false n 0.

Definition ofZ (z : Z) : number := normalize (z <? 0)%Z (Z.abs_N z) 0.

Fixpoint zeros (n : nat) : string :=
  match n with
  | O => EmptyString
  | S n' => String "0" (zeros n')
  end.

(** [Number::toString(x)] in radix ten *)
Definition toString (x : number) : string :=
  match x with
  | NaN => "NaN"
  | Infinity neg => if neg then "-Infinity" else "Infinity"
  | Finite neg m e =>
      if (m =? 0)%N then "0"
      else
        let s := digitsOfN m in
        let k := Z.of_nat (String.length s) in
        let n := (e + k)%Z in
        let body :=
          if ((-5 <=? n) && (n <=? 21))%Z then
            if (k <=? n)%Z then s ++ zeros (Z.to_nat (n - k))
            else if (0 <? n)%Z then
              JS.take (Z.to_nat n) s ++ "." ++ JS.drop (Z.to_nat n) s
            else "0." ++ zeros (Z.to_nat (- n)) ++ s
          else
            let ex := (n - 1)%Z in
            let sign := if (0 <=? ex)%Z then "+" else "-" in
            let etxt := digitsOfN (Z.abs_N ex) in
            if (k =? 1)%Z then s ++ "e" ++ sign ++ etxt
            else JS.take 1 s ++ "." ++ JS.drop 1 s ++ "e" ++ sign ++ etxt in
        if neg then "-" ++ body else body
  end.

(** Whether a number is an integer in [lo, hi], and which. *)
Definition toInteger (x : number) : option Z :=
  match x with
  | Finite neg m e =>
      if (m =? 0)%N then Some 0%Z
      else if (0 <=? e)%Z then
        let a := (Z.of_N m * 10 ^ e)%Z in Some (if neg then (- a)%Z else a)
      else None
  | _ => None
  end.

(** SameValueZero on numbers: [NaN] equals itself and the two zeros agree. *)
Definition sameValueZero (x y : number) : bool :=
  match x, y with
  | NaN, NaN => true
  | Infinity a, Infinity b => Bool.eqb a b
  | Finite a m e, Finite b m' e' =>
      (m =? m')%N && ((m =? 0)%N || (Bool.eqb a b && (e =? e')%Z))
  | _, _ => false
  end.

End Num.

(** ** Dates *)

Module Date.

Definition pad (width : nat) (n : Z) : string :=
  let s := Num.digitsOfN (Z.abs_N n) in
  Num.zeros (width - String.length s) ++ s.

(** The civil date of a day number counted from 1970-01-01, in the
    proleptic Gregorian calendar. *)
Definition civil (day : Z) : Z * Z * Z :=
  let z := (day + 719468)%Z in
  let era := (z / 146097)%Z in
  let doe := (z - era * 146097)%Z in
  let yoe := ((doe - doe / 1460 + doe / 36524 - doe / 146096) / 365)%Z in
  let doy := (doe - (365 * yoe + yoe / 4 - yoe / 100))%Z in
  let mp := ((5 * doy + 2) / 153)%Z in
  let d := (doy - (153 * mp + 2) / 5 + 1)%Z in
  let m := (if mp <? 10 then mp + 3 else mp - 9)%Z in
  let y := (yoe + era * 400 + (if m <=? 2 then 1 else 0))%Z in
  (y, m, d).

(** [Date.prototype.toISOString] of a valid time value *)
Definition toISOString (t : Z) : string :=
  let day := (t / 86400000)%Z in
  let ms := (t mod 86400000)%Z in
  let '(y, m, d) := civil day in
  let year :=
    if ((0 <=? y) && (y <=? 9999))%Z then pad 4 y
    else (if (y <? 0)%Z then "-" else "+") ++ pad 6 y in
  year ++ "-" ++ pad 2 m ++ "-" ++ pad 2 d ++ "T" ++
  pad 2 (ms / 3600000) ++ ":" ++ pad 2 ((ms / 60000) mod 60) ++ ":" ++
  pad 2 ((ms / 1000) mod 60) ++ "." ++ pad 3 (ms mod 1000) ++ "Z".

End Date.

(** ** Objects as ordered property lists *)

Module Obj.

(** An array index in the sense of the language: a canonical numeric string
    below [2^32 - 1]. *)
Definition arrayIndex (k : string) : option N :=
  if Num.isCanonicalUint k then
    let n := Num.valueOfDigits k 0 in
    if (n <? 4294967295)%N then Some n else None
  else None.

Fixpoint lookup {A : Type} (k : string) (es : list (string * A)) : option A :=
  match es with
  | [] => None
  | (k', v) :: es' => if String.eqb k k' then Some v else lookup k es'
  end.

Fixpoint replace {A : Type} (k : string) (v : A) (es : list (string * A))
  : list (string * A) :=
  match es with
  | [] => []
  | (k', v') :: es' =>
      if String.eqb k k' then (k', v) :: es' else (k', v') :: replace k v es'
  end.

(** A new integer-keyed property goes among the integer keys, in ascending
    order; these come before every other key. *)
Fixpoint insertIndexed {A : Type} (n : N) (k : string) (v : A)
  (es : list (string * A)) : list (string * A) :=
  match es with
  | [] => [(k, v)]
  | (k', v') :: es' =>
      match arrayIndex k' with
      | Some n' =>
          if (n' <? n)%N then (k', v') :: insertIndexed n k v es'
          else (k, v) :: es
      | None => (k, v) :: es
      end
  end.

(** [o[k] = v] on a plain object: an existing property keeps its place, a new
    one takes the place the enumeration order gives it. *)
Definition put {A : Type} (k : string) (v : A) (es : list (string * A))
  : list (string * A) :=
  match lookup k es with
  | Some _ => replace k v es
  | None =>
      match arrayIndex k with
      | Some n => insertIndexed n k v es
      | None => es ++ [(k, v)]
      end
  end.

End Obj.

(** ** JSON *)

Module Json.

Definition dquote : ascii := ascii_of_nat 34.
Definition backslash : ascii := ascii_of_nat 92.

Definition hexDigitLower (n : nat) : ascii :=
  if (n <? 10)%nat then ascii_of_nat (48 + n) else ascii_of_nat (87 + n).

(** [QuoteJSONString] on the bytes of a well-formed string: the quote, the
    backslash and the control characters are escaped, everything else is
    copied. *)
Definition escapeChar (c : ascii) : string :=
  let n := nat_of_ascii c in
  if (n =? 34)%nat then String backslash (String dquote EmptyString)
  else if (n =? 92)%nat then String backslash (String backslash EmptyString)
  else if (n =? 8)%nat then String backslash "b"
  else if (n =? 12)%nat then String backslash "f"
  else if (n =? 10)%nat then String backslash "n"
  else if (n =? 13)%nat then String backslash "r"
  else if (n =? 9)%nat then String backslash "t"
  else if (n <? 32)%nat then
    String backslash ("u00" ++ String (hexDigitLower (n / 16))
                                  (String (hexDigitLower (n mod 16)) EmptyString))
  else String c EmptyString.

Fixpoint escapeString (s : string) : string :=
  match s with
  | EmptyString => EmptyString
  | String c s' => escapeChar c ++ escapeString s'
  end.

Definition quote (s : string) : string :=
  String dquote (escapeString s) ++ String dquote EmptyString.

(** [SerializeJSONProperty]: [None] stands for the result [undefined]. *)
Fixpoint serialize (v : Value) : option string :=
  match v with
  | VUndefined => None
  | VNull => Some "null"
  | VBool b => Some (if b then "true" else "false")
  | VNumber n =>
      match n with
      | Finite _ _ _ => Some (Num.toString n)
      | _ => Some "null"
      end
  | VString s => Some (quote s)
  | VDate (Some t) => Some (quote (Date.toISOString t))
  | VDate None => Some "null"
  | VArray items =>
      Some ("[" ++ JS.join ","
              (map (fun x => match serialize x with
                             | Some s => s
                             | None => "null"
                             end) items) ++ "]")
  | VObject entries =>
      Some ("{" ++ JS.join ","
              (flat_map (fun kv => match serialize (snd kv) with
                                   | Some s => [quote (fst kv) ++ ":" ++ s]
                                   | None => []
                                   end) entries) ++ "}")
  | VMap _ => Some "{}"
  | VSet _ => Some "{}"
  end.

(** [JSON.stringify(v)] for a value that is not [undefined] at the top *)
Definition stringify (v : Value) : string :=
  match serialize v with
  | Some s => s
  | None => "undefined"
  end.

End Json.

(** *** [JSON.parse] *)

Module JsonParse.

Definition isWs (c : ascii) : bool :=
  let n := nat_of_ascii c in
  (n =? 32)%nat || (n =? 9)%nat || (n =? 10)%nat || (n =? 13)%nat.

Fixpoint skipWs (s : string) : string :=
  match s with
  | String c s' => if isWs c then skipWs s' else s
  | EmptyString => EmptyString
  end.

(** The longest run of digits at the head of [s], and what follows it. *)
Fixpoint spanDigits (s : string) : string * string :=
  match s with
  | String c s' =>
      if JS.isDigit c then let '(ds, r) := spanDigits s' in (String c ds, r)
      else (EmptyString, s)
  | EmptyString => (EmptyString, EmptyString)
  end.

(** The fraction of a number literal: a dot and at least one digit, or
    nothing. [None] when a dot is followed by no digit. *)
Definition lexFraction (s : string) : option (string * string) :=
  match s with
  | String "." r =>
      match spanDigits r with
      | (EmptyString, _) => None
      | (ds, r') => Some (ds, r')
      end
  | _ => Some (EmptyString, s)
  end.

(** The exponent of a number literal, as an integer. *)
Definition lexExponent (s : string) : option (Z * string) :=
  let digits neg r :=
    match spanDigits r with
    | (EmptyString, _) => None
    | (ds, r') =>
        let n := Z.of_N (Num.valueOfDigits ds 0) in
        Some (if neg : bool then (- n)%Z else n, r')
    end in
  match s with
  | String c r =>
      if Ascii.eqb c "e" || Ascii.eqb c "E" then
        match r with
        | String "+" r' => digits false r'
        | String "-" r' => digits true r'
        | _ => digits false r
        end
      else Some (0%Z, s)
  | EmptyString => Some (0%Z, s)
  end.

(** A JSON number: an optional minus, an integer part with no leading zero,
    an optional fraction and an optional exponent. *)
Definition lexNumber (s : string) : option (number * string) :=
  let '(neg, s1) :=
    match s with
    | String "-" r => (true, r)
    | _ => (false, s)
    end in
  let intPart :=
    match s1 with
    | String "0" r => Some ("0", r)
    | _ =>
        match spanDigits s1 with
        | (EmptyString, _) => None
        | (ds, r) => Some (ds, r)
        end
    end in
  match intPart with
  | None => None
  | Some (ip, s2) =>
      match lexFraction s2 with
      | None => None
      | Some (fp, s3) =>
          match lexExponent s3 with
          | None => None
          | Some (ex, s4) =>
              let m := Num.valueOfDigits (ip ++ fp) 0 in
              let e := (ex - Z.of_nat (String.length fp))%Z in
              Some (Num.normalize neg m e, s4)
          end
      end
  end.

Definition hexValue (c : ascii) : option N :=
  let n := nat_of_ascii c in
  if ((48 <=? n) && (n <=? 57))%nat then Some (N.of_nat (n - 48))
  else if ((65 <=? n) && (n <=? 70))%nat then Some (N.of_nat (n - 55))
  else if ((97 <=? n) && (n <=? 102))%nat then Some (N.of_nat (n - 87))
  else None.

(** Four hexadecimal digits at the head of [s] *)
Definition hex4 (s : string) : option (N * string) :=
  match s with
  | String a (String b (String c (String d r))) =>
      match hexValue a, hexValue b, hexValue c, hexValue d with
      | Some x, Some y, Some z, Some w =>
          Some ((x * 4096 + y * 256 + z * 16 + w)%N, r)
      | _, _, _, _ => None
      end
  | _ => None
  end.

Definition byte (n : N) : ascii := ascii_of_N n.

(** The UTF-8 bytes of a code point (a lone surrogate is written with the
    same three-byte pattern). *)
Definition utf8 (cp : N) : string :=
  if (cp <? 128)%N then String (byte cp) EmptyString
  else if (cp <? 2048)%N then
    String (byte (192 + cp / 64)) (String (byte (128 + cp mod 64)) EmptyString)
  else if (cp <? 65536)%N then
    String (byte (224 + cp / 4096))
      (String (byte (128 + (cp / 64) mod 64))
         (String (byte (128 + cp mod 64)) EmptyString))
  else
    String (byte (240 + cp / 262144))
      (String (byte (128 + (cp / 4096) mod 64))
         (String (byte (128 + (cp / 64) mod 64))
            (String (byte (128 + cp mod 64)) EmptyString))).

(** A [\u] escape, with the low half of a surrogate pair when one follows. *)
Definition lexUnicodeEscape (s : string) : option (string * string) :=
  match hex4 s with
  | None => None
  | Some (hi, r) =>
      let single := Some (utf8 hi, r) in
      if ((55296 <=? hi) && (hi <? 56320))%N then
        match r with
        | String b (String "u" r1) =>
            if Ascii.eqb b Json.backslash then
              match hex4 r1 with
              | Some (lo, r2) =>
                  if ((56320 <=? lo) && (lo <? 57344))%N
                  then Some (utf8 (65536 + (hi - 55296) * 1024 + (lo - 56320)), r2)
                  else single
              | None => single
              end
            else single
        | _ => single
        end
      else single
  end.

(** The characters of a string literal after its opening quote, up to the
    closing quote.  Every call follows the consumption of a character, so
    fuel above the length of the text is never used up. *)
Fixpoint lexString (fuel : nat) (s acc : string) : option (string * string) :=
  match fuel with
  | O => None
  | S fuel' =>
      match s with
      | EmptyString => None
      | String c r =>
          if Ascii.eqb c Json.dquote then Some (acc, r)
          else if Ascii.eqb c Json.backslash then
            match r with
            | String e r' =>
                let plain n := lexString fuel' r' (acc ++ String (ascii_of_nat n) EmptyString) in
                if Ascii.eqb e Json.dquote then plain 34%nat
                else if Ascii.eqb e Json.backslash then plain 92%nat
                else if Ascii.eqb e "/" then plain 47%nat
                else if Ascii.eqb e "b" then plain 8%nat
                else if Ascii.eqb e "f" then plain 12%nat
                else if Ascii.eqb e "n" then plain 10%nat
                else if Ascii.eqb e "r" then plain 13%nat
                else if Ascii.eqb e "t" then plain 9%nat
                else if Ascii.eqb e "u" then
                  match lexUnicodeEscape r' with
                  | Some (bytes, r'') => lexString fuel' r'' (acc ++ bytes)
                  | None => None
                  end
                else None
            | EmptyString => None
            end
          else if (nat_of_ascii c <? 32)%nat then None
          else lexString fuel' r (acc ++ String c EmptyString)
      end
  end.

(** [null], [true] or [false] at the head of [s] *)
Definition lexLiteral (word : string) (v : Value) (s : string)
  : option (Value * string) :=
  if JS.startsWith s word then Some (v, JS.drop (String.length word) s) else None.

(** The grammar of JSON values.  [fuel] bounds the nesting of calls: of two
    successive calls at least one consumes a character of the text, so twice
    the length of the text is never used up. *)
Fixpoint parseValue (fuel : nat) (s : string) : option (Value * string) :=
  match fuel with
  | O => None
  | S fuel' =>
      match skipWs s with
      | EmptyString => None
      | String c r as s0 =>
          if Ascii.eqb c "{" then
            match skipWs r with
            | String "}" r' => Some (VObject [], r')
            | r' => parseMembers fuel' r' []
            end
          else if Ascii.eqb c "[" then
            match skipWs r with
            | String "]" r' => Some (VArray [], r')
            | r' => parseElements fuel' r' []
            end
          else if Ascii.eqb c Json.dquote then
            match lexString (S (String.length r)) r EmptyString with
            | Some (str, r') => Some (VString str, r')
            | None => None
            end
          else if Ascii.eqb c "t" then lexLiteral "true" (VBool true) s0
          else if Ascii.eqb c "f" then lexLiteral "false" (VBool false) s0
          else if Ascii.eqb c "n" then lexLiteral "null" VNull s0
          else
            match lexNumber s0 with
            | Some (n, r') => Some (VNumber n, r')
            | None => None
            end
      end
  end

with parseElements (fuel : nat) (s : string) (acc : list Value)
  : option (Value * string) :=
  match fuel with
  | O => None
  | S fuel' =>
      match parseValue fuel' s with
      | None => None
      | Some (v, r) =>
          match skipWs r with
          | String "," r' => parseElements fuel' r' (acc ++ [v])
          | String "]" r' => Some (VArray (acc ++ [v]), r')
          | _ => None
          end
      end
  end

with parseMembers (fuel : nat) (s : string) (acc : list (string * Value))
  : option (Value * string) :=
  match fuel with
  | O => None
  | S fuel' =>
      match skipWs s with
      | String q r =>
          if Ascii.eqb q Json.dquote then
            match lexString (S (String.length r)) r EmptyString with
            | None => None
            | Some (k, r1) =>
                match skipWs r1 with
                | String ":" r2 =>
                    match parseValue fuel' r2 with
                    | None => None
                    | Some (v, r3) =>
                        match skipWs r3 with
                        | String "," r4 => parseMembers fuel' r4 (Obj.put k v acc)
                        | String "}" r4 => Some (VObject (Obj.put k v acc), r4)
                        | _ => None
                        end
                    end
                | _ => None
                end
            end
          else None
      | EmptyString => None
      end
  end.

(** [JSON.parse(text)]: [None] when it throws a [SyntaxError]. *)
Definition parse (text : string) : option Value :=
  match parseValue (2 * String.length text + 2) text with
  | Some (v, r) =>
      match skipWs r with
      | EmptyString => Some v
      | _ => None
      end
  | None => None
  end.

End JsonParse.

(** ** Percent encoding *)

Module Uri.

Definition hexDigitUpper (n : nat) : ascii :=
  if (n <? 10)%nat then ascii_of_nat (48 + n) else ascii_of_nat (55 + n).

(** The characters [encodeURIComponent] leaves alone: letters, digits and
    [- _ . ! ~ * ' ( )]. *)
Definition unreserved (c : ascii) : bool :=
  let n := nat_of_ascii c in
  ((48 <=? n) && (n <=? 57))%nat || ((65 <=? n) && (n <=? 90))%nat ||
  ((97 <=? n) && (n <=? 122))%nat ||
  existsb (Nat.eqb n) [45; 95; 46; 33; 126; 42; 39; 40; 41]%nat.

(** [encodeURIComponent(s)]: every other byte of the UTF-8 text becomes a
    percent escape. *)
Fixpoint encodeURIComponent (s : string) : string :=
  match s with
  | EmptyString => EmptyString
  | String c s' =>
      if unreserved c then String c (encodeURIComponent s')
      else
        let n := nat_of_ascii c in
        String "%" (String (hexDigitUpper (n / 16))
          (String (hexDigitUpper (n mod 16)) (encodeURIComponent s')))
  end.

(** A piece of the text to decode: a character standing for itself, or the
    byte of a percent escape. *)
Inductive piece : Type :=
| Plain (c : ascii)
| Escaped (b : N).

(** [None] when a percent sign is not followed by two hexadecimal digits. *)
Fixpoint pieces (s : string) : option (list piece) :=
  match s with
  | EmptyString => Some []
  | String "%" (String a (String b r)) =>
      match JsonParse.hexValue a, JsonParse.hexValue b, pieces r with
      | Some x, Some y, Some ps => Some (Escaped (16 * x + y) :: ps)
      | _, _, _ => None
      end
  | String "%" _ => None
  | String c r =>
      match pieces r with
      | Some ps => Some (Plain c :: ps)
      | None => None
      end
  end.

Definition continuation (b : N) : bool := ((128 <=? b) && (b <? 192))%N.

(** The escaped bytes must spell well-formed UTF-8: no stray continuation
    byte, no overlong form, no surrogate, nothing above U+10FFFF. *)
Fixpoint assemble (ps : list piece) : option string :=
  let out bytes rest :=
    match assemble rest with
    | Some s => Some (bytes ++ s)
    | None => None
    end in
  match ps with
  | [] => Some EmptyString
  | Plain c :: rest =>
      match assemble rest with
      | Some s => Some (String c s)
      | None => None
      end
  | Escaped b0 :: rest =>
      if (b0 <? 128)%N then
        match assemble rest with
        | Some s => Some (String (ascii_of_N b0) s)
        | None => None
        end
      else if ((194 <=? b0) && (b0 <? 224))%N then
        match rest with
        | Escaped b1 :: rest1 =>
            if continuation b1 then
              match assemble rest1 with
              | Some s => Some (String (ascii_of_N b0) (String (ascii_of_N b1) s))
              | None => None
              end
            else None
        | _ => None
        end
      else if ((224 <=? b0) && (b0 <? 240))%N then
        match rest with
        | Escaped b1 :: Escaped b2 :: rest2 =>
            let cp := ((b0 - 224) * 4096 + (b1 - 128) * 64 + (b2 - 128))%N in
            if continuation b1 && continuation b2 && (2048 <=? cp)%N &&
               negb ((55296 <=? cp) && (cp <? 57344))%N then
              match assemble rest2 with
              | Some s =>
                  Some (String (ascii_of_N b0) (String (ascii_of_N b1)
                          (String (ascii_of_N b2) s)))
              | None => None
              end
            else None
        | _ => None
        end
      else if ((240 <=? b0) && (b0 <? 245))%N then
        match rest with
        | Escaped b1 :: Escaped b2 :: Escaped b3 :: rest3 =>
            let cp := ((b0 - 240) * 262144 + (b1 - 128) * 4096 +
                       (b2 - 128) * 64 + (b3 - 128))%N in
            if continuation b1 && continuation b2 && continuation b3 &&
               (65536 <=? cp)%N && (cp <? 1114112)%N then
              match assemble rest3 with
              | Some s =>
                  Some (String (ascii_of_N b0) (String (ascii_of_N b1)
                          (String (ascii_of_N b2) (String (ascii_of_N b3) s))))
              | None => None
              end
            else None
        | _ => None
        end
      else None
  end.

(** [decodeURIComponent(s)]: [None] when it throws a [URIError]. *)
Definition decodeURIComponent (s : string) : option string :=
  match pieces s with
  | Some ps => assemble ps
  | None => None
  end.

End Uri.

(** ** Map and Set *)

Module Coll.

(** SameValueZero: primitives by value; two objects are the same only when
    they are one object, which a tree of values cannot tell, so object-typed
    values are taken to be distinct. *)
Definition sameValueZero (a b : Value) : bool :=
  match a, b with
  | VUndefined, VUndefined => true
  | VNull, VNull => true
  | VBool x, VBool y => Bool.eqb x y
  | VNumber x, VNumber y => Num.sameValueZero x y
  | VString x, VString y => String.eqb x y
  | _, _ => false
  end.

(** A key or element [-0] is stored as [+0]. *)
Definition normalizeKey (k : Value) : Value :=
  match k with
  | VNumber (Finite true 0 e) => VNumber (Finite false 0 e)
  | _ => k
  end.

Fixpoint mapSet (k v : Value) (ps : list (Value * Value)) : list (Value * Value) :=
  match ps with
  | [] => [(normalizeKey k, v)]
  | (k', v') :: ps' =>
      if sameValueZero k k' then (k', v) :: ps' else (k', v') :: mapSet k v ps'
  end.

Definition setAdd (x : Value) (xs : list Value) : list Value :=
  if existsb (sameValueZero x) xs then xs else xs ++ [normalizeKey x].

(** The code points of a string: a byte that is no continuation byte starts
    a new one. *)
Fixpoint codePoints (s : string) (cur : string) : list string :=
  let flush rest :=
    match cur with EmptyString => rest | _ => cur :: rest end in
  match s with
  | EmptyString => flush []
  | String c s' =>
      if Uri.continuation (N_of_ascii c)
      then codePoints s' (cur ++ String c EmptyString)
      else flush (codePoints s' (String c EmptyString))
  end.

(** The two halves of an entry handed to the Map constructor: [item[0]] and
    [item[1]] of an object; any other item is a [TypeError]. *)
Definition entryOf (item : Value) : option (Value * Value) :=
  match item with
  | VArray xs => Some (nth 0 xs VUndefined, nth 1 xs VUndefined)
  | VObject es =>
      let get k := match Obj.lookup k es with Some v => v | None => VUndefined end in
      Some (get "0", get "1")
  | VDate _ | VMap _ | VSet _ => Some (VUndefined, VUndefined)
  | _ => None
  end.

Fixpoint fillMap (items : list Value) (acc : list (Value * Value))
  : option (list (Value * Value)) :=
  match items with
  | [] => Some acc
  | item :: items' =>
      match entryOf item with
      | Some (k, v) => fillMap items' (mapSet k v acc)
      | None => None
      end
  end.

(** [new Map(x)] for the result [x] of [JSON.parse]: [None] when the
    constructor throws (its argument is not iterable, or an item is no
    object). *)
Definition newMap (x : Value) : option Value :=
  match x with
  | VUndefined | VNull => Some (VMap [])
  | VArray items =>
      match fillMap items [] with
      | Some ps => Some (VMap ps)
      | None => None
      end
  | VString EmptyString => Some (VMap [])
  | _ => None
  end.

(** [new Set(x)] for the result [x] of [JSON.parse] *)
Definition newSet (x : Value) : option Value :=
  match x with
  | VUndefined | VNull => Some (VSet [])
  | VArray items => Some (VSet (fold_left (fun acc i => setAdd i acc) items []))
  | VString s =>
      Some (VSet (fold_left (fun acc i => setAdd i acc)
                    (map VString (codePoints s EmptyString)) []))
  | _ => None
  end.

End Coll.

(** ** lodash *)

Module Lodash.

Definition isNil (v : Value) : bool :=
  match v with VUndefined | VNull => true | _ => false end.


Definition isDate (v : Value) : bool :=
  match v with VDate _ => true | _ => false end.



Definition isObject (v : Value) : bool :=
  match v with
  | VDate _ | VArray _ | VObject _ | VMap _ | VSet _ => true
  | _ => false
  end.

(** [isEmpty]: no own enumerable key, no element, no entry; a primitive
    other than a string is empty as well. *)
Definition isEmpty (v : Value) : bool :=
  match v with
  | VString (String _ _) => false
  | VArray (_ :: _) => false
  | VObject (_ :: _) => false
  | VMap (_ :: _) => false
  | VSet (_ :: _) => false
  | _ => true
  end.

(** [isIndex(k)]: [reIsUint] and a value below [MAX_SAFE_INTEGER]. *)
Definition isIndex (k : string) : bool :=
  Num.isCanonicalUint k && (Num.valueOfDigits k 0 <? 9007199254740991)%N.

(** [isLength(n)]: an integer from zero to [MAX_SAFE_INTEGER]. *)
Definition isLength (v : Value) : option nat :=
  match v with
  | VNumber n =>
      match Num.toInteger n with
      | Some z =>
          if ((0 <=? z) && (z <=? 9007199254740991))%Z then Some (Z.to_nat z)
          else None
      | None => None
      end
  | _ => None
  end.

(** The keys [baseSet] refuses to walk through. *)
Definition guardedKey (k : string) : bool :=
  String.eqb k "__proto__" || String.eqb k "constructor" || String.eqb k "prototype".

(** The other properties every plain object inherits: all functions. *)
Definition inheritedKeys : list string :=
  ["__defineGetter__"; "__defineSetter__"; "__lookupGetter__";
   "__lookupSetter__"; "hasOwnProperty"; "isPrototypeOf";
   "propertyIsEnumerable"; "toLocaleString"; "toString"; "valueOf"].

(** [nested[key]] as [baseSet] reads it before it descends. *)
Definition getProperty (nested : Value) (key : string) : outcome Value :=
  match nested with
  | VObject es =>
      match Obj.lookup key es with
      | Some v => Returns v
      | None =>
          if existsb (String.eqb key) inheritedKeys then Exotic
          else Returns VUndefined
      end
  | VArray xs =>
      match Obj.arrayIndex key with
      | Some i => Returns (nth (N.to_nat i) xs VUndefined)
      | None =>
          if String.eqb key "length"
          then Returns (VNumber (Num.ofN (N.of_nat (List.length xs))))
          else Exotic
      end
  | _ => Exotic
  end.

(** [xs[i] = v]: an index past the end grows the array with holes. *)
Fixpoint setNth (i : nat) (v : Value) (xs : list Value) : list Value :=
  match i, xs with
  | O, [] => [v]
  | O, _ :: xs' => v :: xs'
  | S i', [] => VUndefined :: setNth i' v []
  | S i', x :: xs' => x :: setNth i' v xs'
  end.

Definition resize (n : nat) (xs : list Value) : list Value :=
  firstn n xs ++ repeat VUndefined (n - List.length xs).

(** [xs.length = v]: a number that is no integer in [0, 2^32 - 1] is a
    [RangeError]. *)
Definition setLength (xs : list Value) (v : Value) : outcome Value :=
  match v with
  | VNumber n =>
      match Num.toInteger n with
      | Some z =>
          if ((0 <=? z) && (z <=? 4294967295))%Z
          then Returns (VArray (resize (Z.to_nat z) xs))
          else Throws RangeError
      | None => Throws RangeError
      end
  | _ => Exotic
  end.

(** [assignValue(nested, key, v)] *)
Definition assignValue (nested : Value) (key : string) (v : Value) : outcome Value :=
  match nested with
  | VObject es => Returns (VObject (Obj.put key v es))
  | VArray xs =>
      match Obj.arrayIndex key with
      | Some i => Returns (VArray (setNth (N.to_nat i) v xs))
      | None => if String.eqb key "length" then setLength xs v else Exotic
      end
  | _ => Exotic
  end.

(** [baseSet]: walk the path, reusing an object found on the way and
    replacing anything else by a fresh array (when the next key is an index)
    or a fresh object; a guarded key ends the walk where it stands. *)
Fixpoint baseSet (nested : Value) (path : list string) (v : Value) : outcome Value :=
  match path with
  | [] => Returns nested
  | key :: rest =>
      if guardedKey key then Returns nested
      else
        match rest with
        | [] => assignValue nested key v
        | next :: _ =>
            objValue <- getProperty nested key ;;
            let child :=
              if isObject objValue then objValue
              else if isIndex next then VArray [] else VObject [] in
            _ <- assignValue nested key child ;;
            child' <- baseSet child rest v ;;
            assignValue nested key child'
        end
  end.

(** [set(object, path, v)] *)
Definition set (object : Value) (path : list string) (v : Value) : outcome Value :=
  if isObject object then baseSet object path v else Returns object.

End Lodash.

Open Scope bool_scope.

(** ** Case converters on ASCII identifiers

    lodash's [camelCase], [snakeCase] and [kebabCase] are parameters of the
    development.  The converters below follow them on identifiers made of
    ASCII letters, digits and separators (words break at a separator, between
    a lower-case letter and an upper-case one, between a letter and a digit,
    and before the last capital of a run that a lower-case letter follows);
    they instantiate the parameters where an example is evaluated. *)

Module AsciiCase.

Inductive charClass : Type := Lower | Upper | Digit | Other.

Definition classify (c : ascii) : charClass :=
  let n := nat_of_ascii c in
  if ((97 <=? n) && (n <=? 122))%nat then Lower
  else if ((65 <=? n) && (n <=? 90))%nat then Upper
  else if ((48 <=? n) && (n <=? 57))%nat then Digit
  else if (128 <=? n)%nat then Lower
  else Other.

Definition toLower (c : ascii) : ascii :=
  match classify c with
  | Upper => ascii_of_nat (nat_of_ascii c + 32)
  | _ => c
  end.

Definition toUpper (c : ascii) : ascii :=
  let n := nat_of_ascii c in
  if ((97 <=? n) && (n <=? 122))%nat then ascii_of_nat (n - 32) else c.

Fixpoint lowerCase (s : string) : string :=
  match s with
  | EmptyString => EmptyString
  | String c s' => String (toLower c) (lowerCase s')
  end.

Definition upperFirst (s : string) : string :=
  match s with
  | EmptyString => EmptyString
  | String c s' => String (toUpper c) s'
  end.

Definition flush (cur : string) (ws : list string) : list string :=
  match cur with
  | EmptyString => ws
  | _ => JS.rev_string cur EmptyString :: ws
  end.

(** What a character does to the word being read. *)
Inductive wordStep : Type := Separate | Extend | Start | SplitLast.

Definition wordStepOf (c : ascii) (cur : string) (prev : charClass) : wordStep :=
  match classify c, prev with
  | Other, _ => Separate
  | Upper, Upper => Extend
  | Upper, _ => Start
  | Lower, Lower => Extend
  | Lower, Upper =>
      match cur with
      | String _ (String _ _) => SplitLast
      | _ => Extend
      end
  | Lower, _ => Start
  | Digit, Digit => Extend
  | Digit, _ => Start
  end.

(** The words of [s], last first; [cur] is the word being read, reversed,
    and [prev] the class of its last character. *)
Fixpoint wordsAux (s cur : string) (prev : charClass) (ws : list string)
  : list string :=
  match s with
  | EmptyString => flush cur ws
  | String c s' =>
      match wordStepOf c cur prev with
      | Separate => wordsAux s' EmptyString Other (flush cur ws)
      | Extend => wordsAux s' (String c cur) (classify c) ws
      | Start => wordsAux s' (String c EmptyString) (classify c) (flush cur ws)
      | SplitLast =>
          match cur with
          | String u rest =>
              wordsAux s' (String c (String u EmptyString)) Lower (flush rest ws)
          | EmptyString => wordsAux s' (String c EmptyString) Lower ws
          end
      end
  end.

Definition words (s : string) : list string :=
  rev (wordsAux s EmptyString Other []).

Definition camelCase (s : string) : string :=
  match map lowerCase (words s) with
  | [] => EmptyString
  | w :: ws => w ++ JS.join EmptyString (map upperFirst ws)
  end.

Definition snakeCase (s : string) : string :=
  JS.join "_" (map lowerCase (words s)).

Definition kebabCase (s : string) : string :=
  JS.join "-" (map lowerCase (words s)).

End AsciiCase.

(** ** The module's options *)

Inductive QsCase : Type := CamelCase | SnakeCase | KebabCase.

(** A key as the traversal of [stringify] holds it: a string, or the number
    lodash hands to the callback for the element of an array (it stays a
    number while no prefix has been put before it). *)
Inductive pkey : Type :=
| KStr (s : string)
| KNum (n : nat).

(** [omitValues]: a list of values, or a predicate on the value and its key *)
Inductive omitSpec : Type :=
| OmitList (vs : list Value)
| OmitPredicate (f : Value -> pkey -> bool).

(** [restoreCase]: a case, or [false] *)
Inductive restoreSpec : Type :=
| RestoreOff
| RestoreTo (c : QsCase).

Record QsOptions : Type := mkQsOptions {
  addQueryPrefix : option bool;
  case : option QsCase;
  omitValues : option omitSpec;
  prefix : option string;
  restoreCase : option restoreSpec
}.

Definition noOptions : option QsOptions := None.

(** [options?.case] and the like: absent options have absent fields. *)
Definition field {A : Type} (f : QsOptions -> option A) (options : option QsOptions)
  : option A :=
  match options with
  | Some o => f o
  | None => None
  end.

(** [options?.prefix] when it is truthy: a prefix that is not empty. *)
Definition prefixOf (options : option QsOptions) : option string :=
  match field prefix options with
  | Some (String c p) => Some (String c p)
  | _ => None
  end.

Definition keyText (k : pkey) : string :=
  match k with
  | KStr s => s
  | KNum n => Num.digitsOfNat n
  end.

(** Truthiness of a key: the empty string and the number zero are falsy. *)
Definition truthy (k : pkey) : bool :=
  match k with
  | KStr EmptyString => false
  | KNum O => false
  | _ => true
  end.

(** ** The module's functions *)

Section UseQs.

(** lodash's case converters. *)
Variables camelCase snakeCase kebabCase : string -> string.

Definition SPECIAL_CHARS (c : ascii) : bool :=
  Ascii.eqb c "&" || Ascii.eqb c "=" || Ascii.eqb c "#".

Definition needsEncoding (value : string) : bool :=
  JS.existsb_string SPECIAL_CHARS value.

Definition isEncoded (value : string) : bool :=
  match Uri.decodeURIComponent value with
  | Some decoded => negb (String.eqb decoded value)
  | None => false
  end.

Definition convert (c : QsCase) (basePart : string) : string :=
  match c with
  | SnakeCase => snakeCase basePart
  | CamelCase => camelCase basePart
  | KebabCase => kebabCase basePart
  end.

(** The callback both key transforms map over the dot-separated parts. *)
Definition transformPart (c : QsCase) (part : string) : string :=
  let splitParts := JS.split "[" part in
  let basePart := hd EmptyString splitParts in
  let arrayParts := tl splitParts in
  if negb (JS.isEmptyString basePart) then
    let casePart := convert c basePart in
    if (0 <? List.length arrayParts)%nat
    then casePart ++ "[" ++ JS.join "[" arrayParts
    else casePart
  else EmptyString.

Definition transformKey (key : string) (options : option QsOptions) : string :=
  match field case options with
  | None => key
  | Some c => JS.join "." (map (transformPart c) (JS.split "." key))
  end.

(** [options?.restoreCase ?? (options?.case ? 'camelCase' : false)] *)
Definition restoreCaseOf (options : option QsOptions) : restoreSpec :=
  match field restoreCase options with
  | Some r => r
  | None =>
      match field case options with
      | Some _ => RestoreTo CamelCase
      | None => RestoreOff
      end
  end.

Definition reverseTransformKey (key : string) (options : option QsOptions) : string :=
  match restoreCaseOf options with
  | RestoreOff => key
  | RestoreTo c => JS.join "." (map (transformPart c) (JS.split "." key))
  end.

Definition addPrefix (key : string) (options : option QsOptions) : string :=
  match prefixOf options with
  | None => key
  | Some p => p ++ key
  end.

(** [key.slice(size(options.prefix))]: lodash counts the symbols of the
    prefix and [slice] counts code units; for a prefix without astral
    characters and combining marks, which is what this model covers here,
    the two agree and the prefix goes as a whole. *)
Definition removePrefix (key : string) (options : option QsOptions) : string :=
  match prefixOf options with
  | None => key
  | Some p => if JS.startsWith key p then JS.drop (String.length p) key else key
  end.

(** The default omits [null], [undefined], the empty string, the empty Map
    and the empty Set.  In a list, a value is looked up with [includes]. *)
Definition shouldOmitValue (value : Value) (key : pkey) (options : option QsOptions)
  : bool :=
  match field omitValues options with
  | None =>
      Lodash.isNil value ||
      match value with
      | VString EmptyString => true
      | VMap [] => true
      | VSet [] => true
      | _ => false
      end
  | Some (OmitPredicate f) => f value key
  | Some (OmitList vs) => existsb (Coll.sameValueZero value) vs
  end.

(** *** parse *)

(** The path of one dot-separated segment of a key (the callback of the
    [map] in [parse]): a segment with an index group is rewritten and split
    again, any other is a path element as it stands. *)
Definition segmentPath (segment : string) : list string :=
  if JS.hasIndexGroup segment None
  then JS.split "." (JS.replaceIndexGroups segment None)
  else [segment].

(** [flattenDeep] of the mapped segments *)
Definition flatPathOf (transformedKey : string) : list string :=
  concat (map segmentPath (JS.split "." transformedKey)).

(** The [try] block of [parse]: the Map wrapper, the Set wrapper, then plain
    JSON; whatever throws leaves the string as it is. *)
Definition decodeValue (value : string) : Value :=
  let attempt :=
    if JS.startsWith value "map(" && JS.endsWith value ")" then
      match JsonParse.parse (JS.slice_between 4 1 value) with
      | Some payload => Coll.newMap payload
      | None => None
      end
    else if JS.startsWith value "set(" && JS.endsWith value ")" then
      match JsonParse.parse (JS.slice_between 4 1 value) with
      | Some payload => Coll.newSet payload
      | None => None
      end
    else JsonParse.parse value in
  match attempt with
  | Some parsedValue => parsedValue
  | None => VString value
  end.

(** The value of a pair as [parse] reads it: decoded when decoding changes
    it, raw otherwise. *)
Definition percentDecoded (rawValue : string) : string :=
  if isEncoded rawValue then
    match Uri.decodeURIComponent rawValue with
    | Some decoded => decoded
    | None => rawValue
    end
  else rawValue.

(** The callback [parse] reduces the pairs with. *)
Definition parseParam (options : option QsOptions) (reduction : Value) (param : string)
  : outcome Value :=
  if JS.isEmptyString param then Returns reduction
  else
    let parts := JS.split "=" param in
    let key := hd EmptyString parts in
    let valueParts := tl parts in
    if JS.isEmptyString key then Returns reduction
    else if match prefixOf options with
            | Some p => negb (JS.startsWith key p)
            | None => false
            end then Returns reduction
    else
      let rawValue := JS.join "=" valueParts in
      let value := percentDecoded rawValue in
      let transformedKey := reverseTransformKey (removePrefix key options) options in
      let flatPath := flatPathOf transformedKey in
      let parsedValue := decodeValue value in
      Lodash.set reduction flatPath parsedValue.

Definition parse (str : string) (options : option QsOptions) : outcome Value :=
  if JS.isEmptyString str then Returns (VObject [])
  else
    let cleanStr := JS.trimStart "?" (JS.trim " " str) in
    fold_left
      (fun acc param => reduction <- acc ;; parseParam options reduction param)
      (JS.split "&" cleanStr)
      (Returns (VObject [])).

(** *** stringify *)

(** [String(value)] of a primitive.  An array never reaches this branch of
    [processValue] from [stringify]; its text is not modelled. *)
Definition stringOf (value : Value) : outcome string :=
  match value with
  | VBool b => Returns (if b then "true" else "false")
  | VNumber n => Returns (Num.toString n)
  | VString s => Returns s
  | VUndefined => Returns "undefined"
  | VNull => Returns "null"
  | _ => Exotic
  end.

(** [toISOString] throws a [RangeError] on an invalid date. *)
Definition processValue (value : Value) : outcome string :=
  if Lodash.isNil value then Returns EmptyString
  else
    stringValue <-
      match value with
      | VDate (Some t) => Returns (Date.toISOString t)
      | VDate None => Throws RangeError
      | VMap pairs =>
          Returns ("map(" ++ Json.stringify
                     (VArray (map (fun kv => VArray [fst kv; snd kv]) pairs)) ++ ")")
      | VSet elems => Returns ("set(" ++ Json.stringify (VArray elems) ++ ")")
      | VObject _ => Returns (Json.stringify value)
      | _ => stringOf value
      end ;;
    Returns (if needsEncoding stringValue
             then Uri.encodeURIComponent stringValue
             else stringValue).

(** [transformKey] as the traversal calls it: on a key that is still a
    number, [key.split] is no function, which is a [TypeError] once a case
    is configured. *)
Definition transformKeyOf (keyPath : pkey) (options : option QsOptions)
  : outcome string :=
  match keyPath with
  | KStr s => Returns (transformKey s options)
  | KNum n =>
      match field case options with
      | None => Returns (Num.digitsOfNat n)
      | Some _ => Throws TypeError
      end
  end.

(** The length of an array-like plain object: lodash iterates it by index. *)
Definition arrayLikeLength (entries : list (string * Value)) : option nat :=
  match Obj.lookup "length" entries with
  | Some v => Lodash.isLength v
  | None => None
  end.

(** [prefix ? `${prefix}.${key}` : key] *)
Definition keyPathOf (prefix key : pkey) : pkey :=
  if truthy prefix then KStr (keyText prefix ++ "." ++ keyText key) else key.

(** The pair of a leaf: the last statement of the callback. *)
Definition leafPair (options : option QsOptions) (keyPath : pkey) (value : Value)
  : outcome (list string) :=
  transformedKey <- transformKeyOf keyPath options ;;
  encoded <- processValue value ;;
  Returns [addPrefix transformedKey options ++ "=" ++ encoded].

(** lodash's [reduce] as [buildKeyValuePairs] uses it, with the array of
    pairs as accumulator: over an array by index, over the own properties of
    an object in enumeration order, and over an array-like object by index
    (a missing index reads [undefined]). *)
Fixpoint reduceArray (f : Value -> pkey -> outcome (list string))
  (index : nat) (items : list Value) : outcome (list string) :=
  match items with
  | [] => Returns []
  | value :: items' =>
      pairs <- f value (KNum index) ;;
      others <- reduceArray f (S index) items' ;;
      Returns (pairs ++ others)%list
  end.

Fixpoint reduceOwn (f : Value -> pkey -> outcome (list string))
  (entries : list (string * Value)) : outcome (list string) :=
  match entries with
  | [] => Returns []
  | (key, value) :: entries' =>
      pairs <- f value (KStr key) ;;
      others <- reduceOwn f entries' ;;
      Returns (pairs ++ others)%list
  end.

Fixpoint atIndex (f : Value -> pkey -> outcome (list string))
  (missing : pkey -> outcome (list string)) (index : nat)
  (entries : list (string * Value)) : outcome (list string) :=
  match entries with
  | [] => missing (KNum index)
  | (k, value) :: entries' =>
      if String.eqb k (Num.digitsOfNat index) then f value (KNum index)
      else atIndex f missing index entries'
  end.

Fixpoint reduceArrayLike (f : Value -> pkey -> outcome (list string))
  (missing : pkey -> outcome (list string)) (entries : list (string * Value))
  (count index : nat) : outcome (list string) :=
  match count with
  | O => Returns []
  | S count' =>
      pairs <- atIndex f missing index entries ;;
      others <- reduceArrayLike f missing entries count' (S index) ;;
      Returns (pairs ++ others)%list
  end.

Section Callback.

(** The recursive call of [buildKeyValuePairs]. *)
Variable self : Value -> pkey -> outcome (list string).
Variable options : option QsOptions.

(** The [map] over the items of an array and the [flattenDeep] of its
    result. *)
Fixpoint arrayPairs (keyPath : pkey) (index : nat) (items : list Value)
  : outcome (list string) :=
  match items with
  | [] => Returns []
  | item :: items' =>
      let arrayKey :=
        transformKey (keyText keyPath ++ "[" ++ Num.digitsOfNat index ++ "]") options in
      pairs <-
        (if Lodash.isObject item && negb (Lodash.isDate item)
         then self item (KStr arrayKey)
         else
           encoded <- processValue item ;;
           Returns [addPrefix arrayKey options ++ "=" ++ encoded]) ;;
      others <- arrayPairs keyPath (S index) items' ;;
      Returns (pairs ++ others)%list
  end.

(** The function [buildKeyValuePairs] hands to [reduce], as the pairs it
    adds to the accumulator. *)
Definition callback (prefix : pkey) (value : Value) (key : pkey)
  : outcome (list string) :=
  let keyPath := keyPathOf prefix key in
  if shouldOmitValue value keyPath options then Returns []
  else
    match value with
    | VArray [] => Returns []
    | VArray items => arrayPairs keyPath O items
    | VObject [] => Returns []
    | VObject _ => self value keyPath
    | _ => leafPair options keyPath value
    end.

(** The callback on [undefined], the value of a missing index. *)
Definition callbackMissing (prefix : pkey) (key : pkey) : outcome (list string) :=
  let keyPath := keyPathOf prefix key in
  if shouldOmitValue VUndefined keyPath options then Returns []
  else leafPair options keyPath VUndefined.

End Callback.

(** [buildKeyValuePairs]: a Map, a Set and a Date have no own enumerable
    property to reduce over. *)
Fixpoint buildKeyValuePairs (options : option QsOptions) (input : Value)
  (prefix : pkey) {struct input} : outcome (list string) :=
  match input with
  | VArray items =>
      reduceArray (callback (buildKeyValuePairs options) options prefix) O items
  | VObject entries =>
      match arrayLikeLength entries with
      | Some n =>
          reduceArrayLike (callback (buildKeyValuePairs options) options prefix)
            (callbackMissing options prefix) entries n O
      | None =>
          reduceOwn (callback (buildKeyValuePairs options) options prefix) entries
      end
  | VString (String _ _) => Exotic
  | _ => Returns []
  end.

Definition stringify (obj : Value) (options : option QsOptions) : outcome string :=
  if Lodash.isEmpty obj then Returns EmptyString
  else
    pairs <- buildKeyValuePairs options obj (KStr EmptyString) ;;
    Returns
      (if (0 <? List.length pairs)%nat
       then (match field addQueryPrefix options with
             | Some false => EmptyString
             | _ => "?"
             end) ++ JS.join "&" pairs
       else EmptyString).

(** *** Reference readings of the wire format

    The text before and after the first occurrence of a character: what the
    data model calls the key and the value of a pair. *)

Fixpoint beforeFirst (c : ascii) (s : string) : string :=
  match s with
  | EmptyString => EmptyString
  | String a s' => if Ascii.eqb a c then EmptyString else String a (beforeFirst c s')
  end.

Fixpoint afterFirst (c : ascii) (s : string) : string :=
  match s with
  | EmptyString => EmptyString
  | String a s' => if Ascii.eqb a c then s' else afterFirst c s'
  end.

(** [c] occurs in [s] *)
Definition occurs (c : ascii) (s : string) : bool :=
  JS.existsb_string (Ascii.eqb c) s.

(** The string made of [n] copies of [c] *)
Fixpoint copies (n : nat) (c : ascii) : string :=
  match n with
  | O => EmptyString
  | S n' => String c (copies n' c)
  end.

(** *** The round trip, as a reference

    What a value is expected to be after [stringify] and [parse] with no
    options: a date has become its ISO text, and an entry of a mapping that
    holds [null], [undefined], an empty string, an empty collection, or a
    mapping with no entry left, is gone. *)

(** A leaf after the trip, when it survives it. *)
Definition settled (leaf : Value) : Value :=
  match leaf with
  | VDate (Some t) => VString (Date.toISOString t)
  | _ => leaf
  end.

(** A leaf survives the trip when the value codec gives it back, and its
    wire text does not end with a space (which [parse] would trim at the end
    of the input). *)
Definition survives (leaf : Value) : Prop :=
  exists w,
    processValue leaf = Returns w /\
    JS.endsWith w " " = false /\
    decodeValue (percentDecoded w) = settled leaf.


Section Expected.

(** The expectation for the elements and entries of a container that is
    itself the element of an array. *)
Variable self : Value -> option Value.





End Expected.








Section Leaves.

Variable self : Value -> list (list string * Value).





End Leaves.




(** A text of ASCII characters. *)
Definition isAscii (s : string) : bool :=
  negb (JS.existsb_string (fun c => (128 <=? nat_of_ascii c)%nat) s).

(** The options without their prefix. *)
Definition withoutPrefix (options : option QsOptions) : option QsOptions :=
  match options with
  | Some o =>
      Some (mkQsOptions (addQueryPrefix o) (case o) (omitValues o) None (restoreCase o))
  | None => None
  end.

(** A function applied to what a computation returns. *)
Definition mapReturned {A B : Type} (f : A -> B) (c : outcome A) : outcome B :=
  x <- c ;; Returns (f x).

(** A pair that is a key, an equals sign and a value text free of the
    characters [&], [=] and [#]. *)
Definition KeyValue (pair : string) : Prop :=
  exists key w, pair = key ++ "=" ++ w /\ needsEncoding w = false.

(** A text that opens with a letter, other than the first letters of the
    JSON literals and of the Map and Set wrappers. *)
Definition wordStart (c : ascii) : bool :=
  let n := nat_of_ascii c in
  (((65 <=? n) && (n <=? 90)) || ((97 <=? n) && (n <=? 122)))%nat &&
  negb (existsb (Ascii.eqb c) ["t"; "f"; "n"; "m"; "s"]%char).

Definition startsWord (s : string) : bool :=
  match s with
  | String c _ => wordStart c
  | EmptyString => false
  end.

(** A dot-separated part of a key with only its base converted: the base is
    the text before the first opening bracket, and the rest of the part
    follows the converted base as it stands. *)
Definition baseOnly (c : QsCase) (part : string) : string :=
  let base := beforeFirst "[" part in
  convert c base ++ JS.drop (String.length base) part.

(** * Properties *)

(** ** Strings *)

Lemma split_not_nil (c : ascii) (s : string) : JS.split c s <> [].
Proof.
  destruct s as [|a s]; simpl; [discriminate|].
  destruct (Ascii.eqb a c); [discriminate|].
  destruct (JS.split c s); discriminate.
Qed.

Lemma split_cons_sep (c : ascii) (s : string) :
  JS.split c (String c s) = EmptyString :: JS.split c s.
Proof. simpl. now rewrite Ascii.eqb_refl. Qed.

Lemma split_cons_other (c a : ascii) (s : string) :
  Ascii.eqb a c = false ->
  JS.split c (String a s) =
  String a (hd EmptyString (JS.split c s)) :: tl (JS.split c s).
Proof.
  intros H. simpl. rewrite H.
  destruct (JS.split c s) eqn:E; [now apply split_not_nil in E|reflexivity].
Qed.

Lemma join_cons (sep x : string) (xs : list string) :
  xs <> [] -> JS.join sep (x :: xs) = x ++ sep ++ JS.join sep xs.
Proof. destruct xs; [congruence|reflexivity]. Qed.

Lemma string_app_nil_r (s : string) : s ++ EmptyString = s.
Proof. induction s; simpl; congruence. Qed.

Lemma string_app_assoc (a b c : string) : (a ++ b) ++ c = a ++ b ++ c.
Proof. induction a; simpl; congruence. Qed.

Lemma join_split (c : ascii) (s : string) :
  JS.join (String c EmptyString) (JS.split c s) = s.
Proof.
  induction s as [|a s IH]; [reflexivity|].
  destruct (Ascii.eqb a c) eqn:E.
  - apply Ascii.eqb_eq in E; subst a. rewrite split_cons_sep.
    rewrite join_cons by apply split_not_nil. simpl. now rewrite IH.
  - rewrite split_cons_other by assumption.
    destruct (JS.split c s) as [|x xs] eqn:Es; [now apply split_not_nil in Es|].
    simpl hd; simpl tl. destruct xs as [|y ys].
    + simpl in *. congruence.
    + change (JS.join (String c EmptyString) (String a x :: y :: ys))
        with (String a (x ++ String c EmptyString ++ JS.join (String c EmptyString) (y :: ys))).
      change (JS.join (String c EmptyString) (x :: y :: ys))
        with (x ++ String c EmptyString ++ JS.join (String c EmptyString) (y :: ys)) in IH.
      now rewrite IH.
Qed.

Lemma split_hd (c : ascii) (s : string) :
  hd EmptyString (JS.split c s) = beforeFirst c s.
Proof.
  induction s as [|a s IH]; [reflexivity|].
  destruct (Ascii.eqb a c) eqn:E.
  - apply Ascii.eqb_eq in E; subst a. rewrite split_cons_sep. simpl.
    now rewrite Ascii.eqb_refl.
  - rewrite split_cons_other by assumption. simpl. now rewrite E, IH.
Qed.

Lemma split_tl (c : ascii) (s : string) :
  JS.join (String c EmptyString) (tl (JS.split c s)) = afterFirst c s.
Proof.
  induction s as [|a s IH]; [reflexivity|].
  destruct (Ascii.eqb a c) eqn:E.
  - apply Ascii.eqb_eq in E; subst a. rewrite split_cons_sep. simpl.
    rewrite Ascii.eqb_refl. apply join_split.
  - rewrite split_cons_other by assumption. simpl. now rewrite E.
Qed.

Lemma split_without (c : ascii) (s : string) :
  occurs c s = false -> JS.split c s = [s].
Proof.
  induction s as [|a s IH]; [reflexivity|].
  intros H. unfold occurs in H. simpl in H. apply orb_false_iff in H as [Ha Hs].
  rewrite Ascii.eqb_sym in Ha. rewrite split_cons_other by assumption.
  unfold occurs in IH. now rewrite IH.
Qed.


Lemma split_tl_nil (c : ascii) (s : string) :
  occurs c s = false -> tl (JS.split c s) = [].
Proof. intros H. now rewrite split_without. Qed.

Lemma split_tl_cons (c : ascii) (s : string) :
  occurs c s = true -> tl (JS.split c s) <> [].
Proof.
  induction s as [|a s IH]; [discriminate|].
  intros H. unfold occurs in H. simpl in H.
  destruct (Ascii.eqb a c) eqn:E.
  - apply Ascii.eqb_eq in E; subst a. rewrite split_cons_sep. simpl.
    apply split_not_nil.
  - rewrite Ascii.eqb_sym, E in H. simpl in H.
    rewrite split_cons_other by assumption. simpl. now apply IH.
Qed.

Lemma before_after (c : ascii) (s : string) :
  occurs c s = true -> s = beforeFirst c s ++ String c (afterFirst c s).
Proof.
  induction s as [|a s IH]; [discriminate|].
  intros H. unfold occurs in H. simpl in *.
  destruct (Ascii.eqb a c) eqn:E.
  - apply Ascii.eqb_eq in E. now subst a.
  - rewrite Ascii.eqb_sym, E in H. simpl in *. f_equal. now apply IH.
Qed.

Lemma before_without (c : ascii) (s : string) :
  occurs c s = false -> beforeFirst c s = s /\ afterFirst c s = EmptyString.
Proof.
  induction s as [|a s IH]; [easy|].
  intros H. unfold occurs in H. simpl in *.
  apply orb_false_iff in H as [Ha Hs]. rewrite Ascii.eqb_sym in Ha. rewrite Ha.
  destruct (IH Hs) as [-> ->]. easy.
Qed.

Lemma before_app (c : ascii) (k v : string) :
  occurs c k = false ->
  beforeFirst c (k ++ String c v) = k /\ afterFirst c (k ++ String c v) = v.
Proof.
  induction k as [|a k IH]; intros H; simpl.
  - now rewrite Ascii.eqb_refl.
  - unfold occurs in H. simpl in H. apply orb_false_iff in H as [Ha Hk].
    rewrite Ascii.eqb_sym in Ha. rewrite Ha. destruct (IH Hk) as [-> ->]. easy.
Qed.

Lemma drop_app_length (a b : string) : JS.drop (String.length a) (a ++ b) = b.
Proof. induction a; simpl; auto. Qed.

Lemma drop_length (a : string) : JS.drop (String.length a) a = EmptyString.
Proof. induction a; simpl; auto. Qed.



Lemma drop_before (c : ascii) (s : string) :
  occurs c s = true ->
  JS.drop (String.length (beforeFirst c s)) s = String c (afterFirst c s).
Proof.
  intros H. rewrite (before_after c s H) at 2. apply drop_app_length.
Qed.

(** ** Key transform *)

Lemma transformPart_base (c : QsCase) (part : string) :
  transformPart c part =
  if JS.isEmptyString (beforeFirst "[" part) then EmptyString else baseOnly c part.
Proof.
  unfold transformPart, baseOnly. rewrite split_hd.
  destruct (JS.isEmptyString (beforeFirst "[" part)) eqn:Eb; [reflexivity|].
  simpl negb. cbv iota.
  destruct (occurs "[" part) eqn:Eo.
  - pose proof (split_tl_cons _ _ Eo) as Hne.
    destruct (tl (JS.split "[" part)) as [|x xs] eqn:Et; [congruence|].
    simpl Nat.ltb. cbv iota. rewrite <- Et. rewrite split_tl.
    f_equal. now rewrite drop_before.
  - rewrite split_tl_nil by assumption. simpl.
    destruct (before_without _ _ Eo) as [-> _].
    now rewrite drop_length, string_app_nil_r.
Qed.

(** C9 (amended).  With a case configured, every dot-separated part of a
    key whose base (the text before its first opening bracket) is not empty
    becomes its converted base followed by the rest of the part, brackets and
    indices unchanged; a part with an empty base becomes the empty string,
    whatever brackets follow.  With no case configured (for the reverse
    transform: with [restoreCase] off) the key is returned as it is. *)
Theorem key_transform_touches_base_only (key : string) (options : option QsOptions) :
  transformKey key options =
    match field case options with
    | None => key
    | Some c =>
        JS.join "."
          (map (fun part =>
                  if JS.isEmptyString (beforeFirst "[" part) then EmptyString
                  else baseOnly c part)
               (JS.split "." key))
    end /\
  reverseTransformKey key options =
    match restoreCaseOf options with
    | RestoreOff => key
    | RestoreTo c =>
        JS.join "."
          (map (fun part =>
                  if JS.isEmptyString (beforeFirst "[" part) then EmptyString
                  else baseOnly c part)
               (JS.split "." key))
    end.
Proof.
  unfold transformKey, reverseTransformKey. split.
  - destruct (field case options); [|reflexivity].
    f_equal. apply map_ext. intros part. apply transformPart_base.
  - destruct (restoreCaseOf options); [reflexivity|].
    f_equal. apply map_ext. intros part. apply transformPart_base.
Qed.

(** ** Pairs *)

Lemma parseParam_reads
  (options : option QsOptions) (reduction : Value) (param : string) :
  parseParam options reduction param =
    let key := beforeFirst "=" param in
    let rawValue := afterFirst "=" param in
    if JS.isEmptyString key then Returns reduction
    else if match prefixOf options with
            | Some p => negb (JS.startsWith key p)
            | None => false
            end then Returns reduction
    else Lodash.set reduction
           (flatPathOf (reverseTransformKey (removePrefix key options) options))
           (decodeValue (percentDecoded rawValue)).
Proof.
  unfold parseParam. rewrite split_hd, split_tl. cbv zeta.
  destruct param as [|a param]; reflexivity.
Qed.

(** C7.  The key of a pair is the text before its first equals sign and its
    value the text after it; a pair with an empty key leaves the result as it
    is (so does one whose key lacks the configured prefix); any other pair is
    written at the path of its key. *)
Theorem parseParam_first_equals
  (options : option QsOptions) (reduction : Value) (param : string) :
  parseParam options reduction param =
    let key := beforeFirst "=" param in
    let rawValue := afterFirst "=" param in
    if JS.isEmptyString key then Returns reduction
    else if match prefixOf options with
            | Some p => negb (JS.startsWith key p)
            | None => false
            end then Returns reduction
    else Lodash.set reduction
           (flatPathOf (reverseTransformKey (removePrefix key options) options))
           (decodeValue (percentDecoded rawValue)).
Proof.
  unfold parseParam. rewrite split_hd, split_tl. cbv zeta.
  destruct param as [|a param]; reflexivity.
Qed.


(** ** Paths *)

Lemma isDigit_not_special (c : ascii) :
  JS.isDigit c = true ->
  Ascii.eqb c "." = false /\ Ascii.eqb c "[" = false /\ Ascii.eqb c "]" = false.
Proof.
  destruct c as [[] [] [] [] [] [] [] []]; cbv; intros H;
    try discriminate; auto.
Qed.

Lemma occurs_cons (c a : ascii) (s : string) :
  occurs c (String a s) = Ascii.eqb a c || occurs c s.
Proof. unfold occurs. cbn [JS.existsb_string]. now rewrite Ascii.eqb_sym. Qed.

Lemma occurs_app (c : ascii) (a b : string) :
  occurs c (a ++ b) = occurs c a || occurs c b.
Proof.
  induction a as [|x a IH]; [reflexivity|].
  change (String x a ++ b) with (String x (a ++ b)).
  now rewrite !occurs_cons, IH, orb_assoc.
Qed.

Lemma allDigits_without (c : ascii) (ds : string) :
  JS.isDigit c = false -> Num.allDigits ds = true -> occurs c ds = false.
Proof.
  intros Hc. induction ds as [|d ds IH]; [reflexivity|].
  cbn [Num.allDigits]. intros H. apply andb_true_iff in H as [Hd Hds].
  rewrite occurs_cons, IH by assumption.
  destruct (Ascii.eqb d c) eqn:E; [|reflexivity].
  apply Ascii.eqb_eq in E. congruence.
Qed.


Lemma isEmptyString_app_r (a : string) (c : ascii) :
  JS.isEmptyString (a ++ String c EmptyString) = false.
Proof. now destruct a. Qed.







(** ** Empty input *)

Lemma rev_string_app (a b acc : string) :
  JS.rev_string (a ++ b) acc = JS.rev_string b (JS.rev_string a acc).
Proof. revert acc. induction a as [|x a IH]; intros acc; simpl; auto. Qed.

Lemma copies_snoc (n : nat) (c : ascii) (s : string) :
  copies n c ++ String c s = String c (copies n c ++ s).
Proof. induction n as [|n IH]; simpl; [reflexivity|]. now rewrite IH. Qed.

Lemma rev_string_copies (n : nat) (c : ascii) (acc : string) :
  JS.rev_string (copies n c) acc = copies n c ++ acc.
Proof.
  revert acc. induction n as [|n IH]; intros acc; simpl; [reflexivity|].
  rewrite IH. apply copies_snoc.
Qed.

Lemma trimStart_copies (n : nat) (c : ascii) (s : string) :
  JS.trimStart c (copies n c ++ s) = JS.trimStart c s.
Proof. induction n as [|n IH]; simpl; [reflexivity|]. now rewrite Ascii.eqb_refl. Qed.

Lemma trimStart_all (n : nat) (c : ascii) :
  JS.trimStart c (copies n c) = EmptyString.
Proof.
  rewrite <- (string_app_nil_r (copies n c)). now rewrite trimStart_copies.
Qed.

(** Spaces around a run of question marks are trimmed to nothing. *)
Lemma clean_blank (a b c : nat) :
  JS.trimStart "?" (JS.trim " " (copies a " " ++ copies b "?" ++ copies c " "))
  = EmptyString.
Proof.
  unfold JS.trim, JS.trimEnd. rewrite trimStart_copies.
  destruct b as [|b].
  - simpl append. rewrite trimStart_all. reflexivity.
  - cbn [copies append JS.trimStart]. simpl Ascii.eqb. cbv iota.
    change (String "?" (copies b "?" ++ copies c " "))
      with (copies (S b) "?" ++ copies c " ").
    rewrite rev_string_app, !rev_string_copies, string_app_nil_r.
    rewrite trimStart_copies. cbn [copies JS.trimStart]. simpl Ascii.eqb. cbv iota.
    change (String "?" (copies b "?")) with (copies (S b) "?").
    rewrite rev_string_copies, string_app_nil_r. apply trimStart_all.
Qed.

(** C5 (amended).  [parse] of an input made of spaces around a run of
    question marks (the empty string, a lone question mark and a run of
    spaces are such inputs) returns the empty mapping, and [stringify] of the
    empty object returns the empty string. *)
Theorem parse_blank_is_empty (options : option QsOptions) (a b c : nat) :
  parse (copies a " " ++ copies b "?" ++ copies c " ") options = Returns (VObject []) /\
  stringify (VObject []) options = Returns EmptyString.
Proof.
  split; [|reflexivity]. unfold parse.
  destruct (JS.isEmptyString _); [reflexivity|].
  rewrite clean_blank. reflexivity.
Qed.

(** ** Values on the wire *)

(** C3.  A value that starts with [map(] and ends with a closing parenthesis
    is read as a Map built from the JSON of its payload; otherwise one that
    starts with [set(] and ends with a closing parenthesis is read as a Set;
    otherwise the whole value is read as JSON.  Whenever the reading fails
    (the JSON does not parse, or the constructor rejects the payload) the
    result is the string itself. *)
Theorem decodeValue_order (value : string) :
  (JS.startsWith value "map(" && JS.endsWith value ")" = true ->
   decodeValue value =
     match JsonParse.parse (JS.slice_between 4 1 value) with
     | Some payload =>
         match Coll.newMap payload with
         | Some m => m
         | None => VString value
         end
     | None => VString value
     end) /\
  (JS.startsWith value "map(" && JS.endsWith value ")" = false ->
   JS.startsWith value "set(" && JS.endsWith value ")" = true ->
   decodeValue value =
     match JsonParse.parse (JS.slice_between 4 1 value) with
     | Some payload =>
         match Coll.newSet payload with
         | Some s => s
         | None => VString value
         end
     | None => VString value
     end) /\
  (JS.startsWith value "map(" && JS.endsWith value ")" = false ->
   JS.startsWith value "set(" && JS.endsWith value ")" = false ->
   decodeValue value =
     match JsonParse.parse value with
     | Some parsed => parsed
     | None => VString value
     end).
Proof.
  unfold decodeValue. repeat split.
  - intros ->. destruct (JsonParse.parse _); reflexivity.
  - intros -> ->. destruct (JsonParse.parse _); reflexivity.
  - intros -> ->. reflexivity.
Qed.

(** ** The query prefix *)

(** C6.  When the traversal leaves no pair [stringify] returns the empty
    string; otherwise it returns the pairs joined by ampersands, after a
    question mark unless [addQueryPrefix] is [false]. *)
Theorem stringify_prefix_rule
  (obj : Value) (options : option QsOptions) (pairs : list string) :
  buildKeyValuePairs options obj (KStr EmptyString) = Returns pairs ->
  stringify obj options =
  Returns
    match pairs with
    | [] => EmptyString
    | _ :: _ =>
        (match field addQueryPrefix options with
         | Some false => EmptyString
         | _ => "?"
         end) ++ JS.join "&" pairs
    end.
Proof.
  intros H. unfold stringify. rewrite H.
  destruct (Lodash.isEmpty obj) eqn:E.
  - assert (pairs = []) as ->; [|reflexivity].
    destruct obj as [| | | |[|]|?|[|]|[|]|[|]|[|]]; try discriminate E;
      simpl in H; congruence.
  - simpl. now destruct pairs.
Qed.

(** ** Omission *)







(** ** Digits *)

Lemma uint_allDigits (d : Decimal.uint) :
  Num.allDigits (NilEmpty.string_of_uint d) = true.
Proof. induction d; simpl; auto. Qed.


Lemma to_uint_normal (n : nat) : Decimal.unorm (Nat.to_uint n) = Nat.to_uint n.
Proof. rewrite <- (Unsigned.of_to n) at 2. now rewrite Unsigned.to_of. Qed.

Lemma nzhead_shape (d : Decimal.uint) :
  match Decimal.nzhead d with
  | Decimal.D0 _ => False
  | _ => True
  end.
Proof. induction d; simpl; auto. Qed.

Lemma unorm_canonical (d : Decimal.uint) :
  Num.isCanonicalUint (NilZero.string_of_uint (Decimal.unorm d)) = true.
Proof.
  unfold Decimal.unorm. pose proof (nzhead_shape d) as H.
  destruct (Decimal.nzhead d) eqn:E; try reflexivity; try contradiction;
    unfold NilZero.string_of_uint;
    cbn [NilEmpty.string_of_uint Num.isCanonicalUint Num.allDigits];
    simpl JS.isDigit; apply uint_allDigits.
Qed.


Lemma digitsOfNat_canonical (n : nat) :
  Num.isCanonicalUint (Num.digitsOfNat n) = true.
Proof. unfold Num.digitsOfNat. rewrite <- to_uint_normal. apply unorm_canonical. Qed.






(** ** Writing at a path *)

Lemma lookup_app_fresh {A : Type} (k : string) (c : A) (es : list (string * A)) :
  Obj.lookup k es = None -> Obj.lookup k (es ++ [(k, c)]) = Some c.
Proof.
  induction es as [|[k' v'] es IH]; simpl.
  - now rewrite String.eqb_refl.
  - destruct (String.eqb k k'); [discriminate|]. exact IH.
Qed.

Lemma replace_app_fresh {A : Type} (k : string) (c c' : A) (es : list (string * A)) :
  Obj.lookup k es = None ->
  Obj.replace k c' (es ++ [(k, c)]) = (es ++ [(k, c')])%list.
Proof.
  induction es as [|[k' v'] es IH]; simpl.
  - now rewrite String.eqb_refl.
  - destruct (String.eqb k k'); [discriminate|]. intros H. now rewrite IH.
Qed.


Lemma put_again {A : Type} (k : string) (c c' : A) (es : list (string * A)) :
  Obj.lookup k es = None ->
  Obj.put k c' (es ++ [(k, c)]) = (es ++ [(k, c')])%list.
Proof.
  intros H. unfold Obj.put. rewrite (lookup_app_fresh k c es H).
  now apply replace_app_fresh.
Qed.








(** An array or a plain object: what [baseSet] builds and walks through. *)
Definition isContainer (v : Value) : bool :=
  match v with
  | VArray _ | VObject _ => true
  | _ => false
  end.








(** ** Induction on values *)

Section ValueInduction.

Variable P : Value -> Prop.
Hypothesis HArray : forall items, Forall P items -> P (VArray items).
Hypothesis HObject :
  forall entries, Forall (fun kv => P (snd kv)) entries -> P (VObject entries).
Hypothesis HOther : forall v, isContainer v = false -> P v.

Fixpoint Value_induction (v : Value) : P v :=
  match v with
  | VArray items =>
      HArray items
        ((fix all (l : list Value) : Forall P l :=
            match l with
            | [] => Forall_nil P
            | x :: l' => Forall_cons x (Value_induction x) (all l')
            end) items)
  | VObject entries =>
      HObject entries
        ((fix all (l : list (string * Value)) : Forall (fun kv => P (snd kv)) l :=
            match l with
            | [] => Forall_nil _
            | kv :: l' => Forall_cons kv (Value_induction (snd kv)) (all l')
            end) entries)
  | VUndefined => HOther VUndefined eq_refl
  | VNull => HOther VNull eq_refl
  | VBool b => HOther (VBool b) eq_refl
  | VNumber n => HOther (VNumber n) eq_refl
  | VString s => HOther (VString s) eq_refl
  | VDate t => HOther (VDate t) eq_refl
  | VMap pairs => HOther (VMap pairs) eq_refl
  | VSet elems => HOther (VSet elems) eq_refl
  end.

End ValueInduction.

(** ** What is left of a value *)





(** ** Rebuilding a value from its leaves *)

















(** ** Key texts and their paths *)




Lemma scan_plain (k t : string) :
  occurs "[" k = false ->
  JS.replaceIndexGroups (k ++ t) None = k ++ JS.replaceIndexGroups t None /\
  JS.hasIndexGroup (k ++ t) None = JS.hasIndexGroup t None.
Proof.
  induction k as [|x k IH]; intros H; [easy|].
  rewrite occurs_cons in H. apply orb_false_iff in H as [Hx Hk].
  change (String x k ++ t) with (String x (k ++ t)).
  cbn [JS.replaceIndexGroups JS.hasIndexGroup]. rewrite Hx.
  destruct (IH Hk) as [-> ->]. easy.
Qed.


Lemma segmentPath_plain (k : string) :
  occurs "[" k = false -> segmentPath k = [k].
Proof.
  intros H. destruct (scan_plain k EmptyString H) as [_ Hh].
  rewrite string_app_nil_r in Hh. unfold segmentPath. now rewrite Hh.
Qed.








(** ** The pairs [stringify] writes *)

Lemma encodeURIComponent_cons (c : ascii) (s : string) :
  Uri.encodeURIComponent (String c s) =
  Uri.encodeURIComponent (String c EmptyString) ++ Uri.encodeURIComponent s.
Proof. cbn [Uri.encodeURIComponent]. now destruct (Uri.unreserved c). Qed.

Lemma encoded_char_clean (c : ascii) :
  needsEncoding (Uri.encodeURIComponent (String c EmptyString)) = false.
Proof. destruct c as [[] [] [] [] [] [] [] []]; vm_compute; reflexivity. Qed.

Lemma needsEncoding_app (a b : string) :
  needsEncoding (a ++ b) = needsEncoding a || needsEncoding b.
Proof.
  unfold needsEncoding. induction a as [|x a IH]; [reflexivity|].
  cbn [append JS.existsb_string]. now rewrite IH, orb_assoc.
Qed.

(** Percent-encoded text holds none of the characters that call for
    encoding. *)
Lemma encoded_clean (s : string) :
  needsEncoding (Uri.encodeURIComponent s) = false.
Proof.
  induction s as [|c s IH]; [reflexivity|].
  now rewrite encodeURIComponent_cons, needsEncoding_app, encoded_char_clean, IH.
Qed.













(** ** Reading the pairs back *)

Lemma rev_string_acc (s acc : string) :
  JS.rev_string s acc = JS.rev_string s EmptyString ++ acc.
Proof.
  revert acc. induction s as [|c s IH]; intros acc; [reflexivity|].
  cbn [JS.rev_string]. rewrite IH, (IH (String c EmptyString)).
  now rewrite string_app_assoc.
Qed.

Lemma rev_string_involutive (s : string) :
  JS.rev_string (JS.rev_string s EmptyString) EmptyString = s.
Proof.
  induction s as [|c s IH]; [reflexivity|].
  cbn [JS.rev_string]. rewrite (rev_string_acc s (String c EmptyString)).
  rewrite rev_string_app. cbn [JS.rev_string].
  now rewrite IH.
Qed.

Lemma startsWith_char (a c : ascii) (s : string) :
  JS.startsWith (String c s) (String a EmptyString) = Ascii.eqb a c.
Proof. cbn [JS.startsWith]. destruct s; apply andb_true_r. Qed.



Lemma endsWith_app (a b : string) (c : ascii) :
  b <> EmptyString ->
  JS.endsWith (a ++ b) (String c EmptyString) = JS.endsWith b (String c EmptyString).
Proof.
  intros Hb. unfold JS.endsWith. cbn [JS.rev_string].
  rewrite rev_string_app, (rev_string_acc b).
  destruct (JS.rev_string b EmptyString) as [|x r] eqn:E.
  - exfalso. apply Hb. rewrite <- (rev_string_involutive b), E. reflexivity.
  - cbn [append]. now rewrite !startsWith_char.
Qed.



Lemma fold_parse_fails (options : option QsOptions) (params : list string)
  (r : outcome Value) :
  (forall v, r <> Returns v) ->
  fold_left (fun acc param => reduction <- acc ;; parseParam options reduction param)
    params r = r.
Proof.
  revert r. induction params as [|p ps IH]; intros r Hr; [reflexivity|].
  cbn [fold_left]. destruct r as [v| |]; [now contradiction (Hr v)| |];
    cbn [bind]; now apply IH.
Qed.








(** ** Keys, paths and value texts *)


(** X2.  The text [processValue] returns for a value holds none of the
    characters [&], [=] and [#]: a text that has one is percent-encoded as
    a whole. *)
Theorem processValue_output_clean (value : Value) (w : string) :
  processValue value = Returns w -> needsEncoding w = false.
Proof.
  unfold processValue. destruct (Lodash.isNil value); [now intros [= <-]|].
  match goal with
  | |- (x <- ?e ;; _) = _ -> _ => destruct e as [sv| |]; try discriminate
  end.
  cbn [bind]. intros [= <-].
  destruct (needsEncoding sv) eqn:E; [apply encoded_clean|exact E].
Qed.

Lemma split_keeps_absent (c d : ascii) (s : string) :
  occurs c s = false -> Forall (fun seg => occurs c seg = false) (JS.split d s).
Proof.
  induction s as [|a s IH]; intros H.
  - now constructor.
  - rewrite occurs_cons in H. apply orb_false_iff in H as [Ha Hs].
    specialize (IH Hs). destruct (Ascii.eqb a d) eqn:E.
    + apply Ascii.eqb_eq in E; subst a. rewrite split_cons_sep.
      now constructor.
    + rewrite split_cons_other by assumption.
      destruct (JS.split d s) as [|x xs]; cbn [hd tl].
      * constructor; [|constructor]. now rewrite occurs_cons, Ha.
      * inversion IH as [|? ? Hx Hxs]; subst.
        constructor; [|assumption]. now rewrite occurs_cons, Ha, Hx.
Qed.

(** X3.  The path [parse] computes from a key that has no opening bracket
    is the key split at its dots: nothing else of a key is interpreted. *)
Theorem flatPathOf_dotted (key : string) :
  occurs "[" key = false -> flatPathOf key = JS.split "." key.
Proof.
  intros H. unfold flatPathOf.
  pose proof (split_keeps_absent "[" "." key H) as Hall.
  induction Hall as [|seg segs Hseg _ IH]; [reflexivity|].
  cbn [map concat]. rewrite (segmentPath_plain seg Hseg), IH. reflexivity.
Qed.

(** X4.  The path [parse] hands to [set] is never empty, whatever the
    key. *)
Theorem flatPathOf_not_nil (key : string) : flatPathOf key <> [].
Proof.
  unfold flatPathOf.
  destruct (JS.split "." key) as [|seg segs] eqn:E; [now apply split_not_nil in E|].
  cbn [map concat]. unfold segmentPath at 1.
  destruct (JS.hasIndexGroup seg None); [|discriminate].
  destruct (JS.split "." (JS.replaceIndexGroups seg None)) eqn:E2;
    [now apply split_not_nil in E2|discriminate].
Qed.

Lemma baseSet_mapping (es : list (string * Value)) (path : list string)
  (x r : Value) :
  Lodash.baseSet (VObject es) path x = Returns r -> exists es', r = VObject es'.
Proof.
  destruct path as [|k rest]; cbn [Lodash.baseSet].
  - intros [= <-]. now exists es.
  - destruct (Lodash.guardedKey k); [intros [= <-]; now exists es|].
    destruct rest as [|next rest'].
    + cbn [Lodash.assignValue]. intros [= <-]. now eexists.
    + destruct (Lodash.getProperty (VObject es) k) as [o| |]; try discriminate.
      cbn [bind Lodash.assignValue].
      destruct (Lodash.baseSet _ _ _); try discriminate.
      cbn [bind]. intros [= <-]. now eexists.
Qed.

Lemma parseParam_mapping (options : option QsOptions)
  (es : list (string * Value)) (param : string) (r : Value) :
  parseParam options (VObject es) param = Returns r -> exists es', r = VObject es'.
Proof.
  unfold parseParam. destruct (JS.isEmptyString param); [intros [= <-]; now exists es|].
  cbv zeta. destruct (JS.isEmptyString _); [intros [= <-]; now exists es|].
  match goal with
  | |- (if ?b then _ else _) = _ -> _ => destruct b; [intros [= <-]; now exists es|]
  end.
  unfold Lodash.set. cbn [Lodash.isObject]. apply baseSet_mapping.
Qed.

(** X5.  Whenever [parse] returns, it returns a plain mapping: no pair turns
    the result into an array or a value of another kind. *)
Theorem parse_returns_mapping (str : string) (options : option QsOptions)
  (result : Value) :
  parse str options = Returns result -> exists entries, result = VObject entries.
Proof.
  unfold parse. destruct (JS.isEmptyString str); [intros [= <-]; now exists []|].
  cbv zeta. generalize (JS.split "&" (JS.trimStart "?" (JS.trim " " str))).
  intros params. generalize (@nil (string * Value)).
  induction params as [|param params IH]; intros es; cbn [fold_left bind].
  - intros [= <-]. now exists es.
  - destruct (parseParam options (VObject es) param) as [r| |] eqn:E.
    + destruct (parseParam_mapping options es param r E) as [es' ->].
      apply IH.
    + now rewrite fold_parse_fails.
    + now rewrite fold_parse_fails.
Qed.

(** ** The input of parse and the traversal of stringify *)





Lemma atIndex_no_index (f : Value -> pkey -> outcome (list string))
  (missing : pkey -> outcome (list string)) (index : nat)
  (entries : list (string * Value)) :
  Forall (fun kv => Num.isCanonicalUint (fst kv) = false) entries ->
  atIndex f missing index entries = missing (KNum index).
Proof.
  induction 1 as [|[k v] es Hk _ IH]; [reflexivity|].
  cbn [atIndex fst] in *. destruct (String.eqb k (Num.digitsOfNat index)) eqn:E;
    [|exact IH].
  apply String.eqb_eq in E; subst k. now rewrite digitsOfNat_canonical in Hk.
Qed.

Lemma reduceArrayLike_missing (f : Value -> pkey -> outcome (list string))
  (missing : pkey -> outcome (list string)) (entries : list (string * Value))
  (count index : nat) :
  Forall (fun kv => Num.isCanonicalUint (fst kv) = false) entries ->
  (forall i, missing (KNum i) = Returns []) ->
  reduceArrayLike f missing entries count index = Returns [].
Proof.
  intros Hk Hm. revert index.
  induction count as [|count IH]; intros index; [reflexivity|].
  cbn [reduceArrayLike]. rewrite (atIndex_no_index f missing index entries Hk), Hm.
  cbn [bind]. now rewrite IH.
Qed.

(** X7.  A mapping with a valid numeric [length] is reduced by index, like
    an array: when none of its keys is an index, every index reads
    [undefined], which the default policy omits, and [stringify] writes
    nothing of the mapping, its named entries included. *)
Theorem stringify_array_like_writes_nothing (entries : list (string * Value))
  (n : nat) :
  arrayLikeLength entries = Some n ->
  Forall (fun kv => Num.isCanonicalUint (fst kv) = false) entries ->
  stringify (VObject entries) noOptions = Returns EmptyString.
Proof.
  intros Hlen Hk. unfold stringify.
  destruct (Lodash.isEmpty (VObject entries)); [reflexivity|].
  cbn [buildKeyValuePairs]. rewrite Hlen.
  rewrite reduceArrayLike_missing; [reflexivity|assumption|reflexivity].
Qed.

(** X8.  An invalid date that is not omitted makes [stringify] throw a
    [RangeError]: its ISO text is asked for when its pair is written. *)
Theorem stringify_throws_on_invalid_date (k : string)
  (rest : list (string * Value)) (options : option QsOptions) :
  arrayLikeLength ((k, VDate None) :: rest) = None ->
  shouldOmitValue (VDate None) (KStr k) options = false ->
  stringify (VObject ((k, VDate None) :: rest)) options = Throws RangeError.
Proof.
  intros Hlike Homit. unfold stringify. cbn [Lodash.isEmpty buildKeyValuePairs].
  rewrite Hlike. cbn [reduceOwn]. unfold callback at 1.
  change (keyPathOf (KStr EmptyString) (KStr k)) with (KStr k). cbv zeta.
  rewrite Homit. reflexivity.
Qed.

(** ** The percent layer of the value codec *)

Lemma pieces_cons_other (c : ascii) (r : string) :
  Ascii.eqb c "%" = false ->
  Uri.pieces (String c r) =
  match Uri.pieces r with
  | Some ps => Some (Uri.Plain c :: ps)
  | None => None
  end.
Proof.
  destruct c as [[] [] [] [] [] [] [] []]; intros H;
    try discriminate H; reflexivity.
Qed.

Lemma pieces_percent (r : string) :
  Uri.pieces (String "%" r) =
  match r with
  | String a (String b r') =>
      match JsonParse.hexValue a, JsonParse.hexValue b, Uri.pieces r' with
      | Some x, Some y, Some ps => Some (Uri.Escaped (16 * x + y) :: ps)
      | _, _, _ => None
      end
  | _ => None
  end.
Proof. destruct r as [|a [|b r']]; reflexivity. Qed.

Lemma decode_without_percent (s : string) :
  occurs "%" s = false -> Uri.decodeURIComponent s = Some s.
Proof.
  unfold Uri.decodeURIComponent. induction s as [|c s IH]; intros H; [reflexivity|].
  rewrite occurs_cons in H. apply orb_false_iff in H as [Hc Hs].
  specialize (IH Hs). rewrite pieces_cons_other by assumption.
  destruct (Uri.pieces s) as [ps|]; [|discriminate].
  cbn [Uri.assemble]. now rewrite IH.
Qed.

(** X9.  A value text without a percent sign is taken as it stands: a plus
    sign, for one, is no space. *)
Theorem percentDecoded_without_percent (rawValue : string) :
  occurs "%" rawValue = false -> percentDecoded rawValue = rawValue.
Proof.
  intros H. unfold percentDecoded, isEncoded.
  rewrite (decode_without_percent rawValue H).
  now destruct (negb (String.eqb rawValue rawValue)).
Qed.

Lemma pieces_trailing_percent (n : nat) (s : string) :
  (String.length s <= n)%nat -> Uri.pieces (s ++ "%") = None.
Proof.
  revert s. induction n as [|n IH]; intros s Hn.
  - destruct s; [reflexivity|cbn in Hn; lia].
  - destruct s as [|c s]; [reflexivity|].
    cbn [String.length] in Hn. cbn [append].
    destruct (Ascii.eqb c "%") eqn:E.
    + apply Ascii.eqb_eq in E; subst c. rewrite pieces_percent.
      destruct s as [|a [|b r]]; cbn [append].
      * reflexivity.
      * now destruct (JsonParse.hexValue a).
      * rewrite (IH r) by (cbn [String.length] in Hn; lia).
        now destruct (JsonParse.hexValue a), (JsonParse.hexValue b).
    + rewrite pieces_cons_other by assumption.
      now rewrite (IH s) by lia.
Qed.

(** X10.  A value text that ends with a percent sign cannot be decoded;
    [parse] keeps it as it stands and does not throw. *)
Theorem percentDecoded_trailing_percent (s : string) :
  isEncoded (s ++ "%") = false /\ percentDecoded (s ++ "%") = s ++ "%".
Proof.
  unfold percentDecoded, isEncoded, Uri.decodeURIComponent.
  now rewrite (pieces_trailing_percent (String.length s) s (le_n _)).
Qed.

Lemma decode_encoded_char (c : ascii) :
  (128 <=? nat_of_ascii c)%nat = false ->
  forall r ps,
    Uri.pieces r = Some ps ->
    exists q,
      Uri.pieces (Uri.encodeURIComponent (String c EmptyString) ++ r) = Some (q :: ps) /\
      forall rest out,
        Uri.assemble rest = Some out ->
        Uri.assemble (q :: rest) = Some (String c out).
Proof.
  destruct c as [[] [] [] [] [] [] [] []]; intros H; try discriminate H;
    intros r ps Hr;
    (eexists; split;
     [ cbn [Uri.encodeURIComponent append]; vm_compute Uri.unreserved; cbv iota;
       cbn [append];
       first [ rewrite pieces_cons_other by reflexivity; rewrite Hr; reflexivity
             | rewrite pieces_percent; rewrite Hr; reflexivity ]
     | intros rest out Hout; cbn [Uri.assemble]; rewrite Hout; reflexivity ]).
Qed.

Lemma decode_encoded (s : string) :
  isAscii s = true ->
  Uri.decodeURIComponent (Uri.encodeURIComponent s) = Some s.
Proof.
  unfold isAscii, Uri.decodeURIComponent. intros H. apply negb_true_iff in H.
  assert (G : exists ps, Uri.pieces (Uri.encodeURIComponent s) = Some ps /\
                         Uri.assemble ps = Some s).
  { induction s as [|c s IH]; [now exists []|].
    cbn [JS.existsb_string] in H. apply orb_false_iff in H as [Hc Hs].
    destruct (IH Hs) as (ps & Hps & Has).
    destruct (decode_encoded_char c Hc _ ps Hps) as (q & Hq & Hasm).
    exists (q :: ps). rewrite encodeURIComponent_cons. split; [exact Hq|].
    now apply Hasm. }
  destruct G as (ps & -> & Has). exact Has.
Qed.

(** X11.  The percent layer gives an ASCII string back: the text
    [processValue] writes for it decodes to the string, when the string
    holds one of [&], [=], [#] (it is then encoded as a whole) or holds no
    percent sign. *)
Theorem string_text_decodes_back (s : string) :
  isAscii s = true ->
  needsEncoding s = true \/ occurs "%" s = false ->
  exists w, processValue (VString s) = Returns w /\ percentDecoded w = s.
Proof.
  intros Ha Hs. unfold processValue. cbn [Lodash.isNil stringOf bind].
  destruct (needsEncoding s) eqn:E.
  - exists (Uri.encodeURIComponent s). split; [reflexivity|].
    unfold percentDecoded, isEncoded. rewrite (decode_encoded s Ha).
    destruct (String.eqb s (Uri.encodeURIComponent s)) eqn:Eq; [|reflexivity].
    cbn [negb]. apply String.eqb_eq in Eq. now rewrite <- Eq.
  - exists s. split; [reflexivity|].
    destruct Hs as [Hs|Hs]; [discriminate|].
    unfold percentDecoded, isEncoded. rewrite (decode_without_percent s Hs).
    now rewrite String.eqb_refl.
Qed.

(** ** The prefix option *)



Section PrefixedPairs.

(** Two option values that differ in their prefix only, the second with
    none. *)
Variables options bare : option QsOptions.
Hypothesis bare_prefix : prefixOf bare = None.
Hypothesis bare_case : field case bare = field case options.
Hypothesis bare_omitValues : field omitValues bare = field omitValues options.

Let prefixed (pairs : list string) : list string :=
  map (fun pair => addPrefix pair options) pairs.

Lemma addPrefix_app (a b : string) :
  addPrefix (a ++ b) options = addPrefix a options ++ b.
Proof.
  unfold addPrefix. destruct (prefixOf options); [|reflexivity].
  now rewrite string_app_assoc.
Qed.

Lemma addPrefix_bare (key : string) : addPrefix key bare = key.
Proof. unfold addPrefix. now rewrite bare_prefix. Qed.

Lemma shouldOmit_bare (v : Value) (k : pkey) :
  shouldOmitValue v k bare = shouldOmitValue v k options.
Proof. unfold shouldOmitValue. now rewrite bare_omitValues. Qed.

Lemma transformKey_bare (key : string) :
  transformKey key bare = transformKey key options.
Proof. unfold transformKey. now rewrite bare_case. Qed.

Lemma transformKeyOf_bare (k : pkey) :
  transformKeyOf k bare = transformKeyOf k options.
Proof.
  destruct k; cbn [transformKeyOf]; [now rewrite transformKey_bare|].
  now rewrite bare_case.
Qed.

Lemma leafPair_prefixed (k : pkey) (v : Value) :
  leafPair options k v = mapReturned prefixed (leafPair bare k v).
Proof.
  unfold leafPair, mapReturned. rewrite transformKeyOf_bare.
  destruct (transformKeyOf k options) as [t| |]; try reflexivity.
  cbn [bind]. destruct (processValue v) as [w| |]; try reflexivity.
  cbn [bind prefixed map]. now rewrite addPrefix_bare, addPrefix_app.
Qed.

Lemma mapReturned_append (a b : outcome (list string)) :
  (pairs <- mapReturned prefixed a ;;
   others <- mapReturned prefixed b ;;
   Returns (pairs ++ others)%list) =
  mapReturned prefixed
    (pairs <- a ;; others <- b ;; Returns (pairs ++ others)%list).
Proof.
  unfold mapReturned. destruct a as [x| |]; try reflexivity.
  cbn [bind]. destruct b as [y| |]; try reflexivity.
  cbn [bind]. unfold prefixed. now rewrite map_app.
Qed.

Lemma reduceArray_prefixed (f g : Value -> pkey -> outcome (list string))
  (items : list Value) :
  Forall (fun x => forall key, f x key = mapReturned prefixed (g x key)) items ->
  forall index,
    reduceArray f index items = mapReturned prefixed (reduceArray g index items).
Proof.
  induction 1 as [|x items Hx _ IH]; intros index; [reflexivity|].
  cbn [reduceArray]. rewrite Hx, IH. apply mapReturned_append.
Qed.

Lemma reduceOwn_prefixed (f g : Value -> pkey -> outcome (list string))
  (entries : list (string * Value)) :
  Forall (fun kv => forall key, f (snd kv) key = mapReturned prefixed (g (snd kv) key))
    entries ->
  reduceOwn f entries = mapReturned prefixed (reduceOwn g entries).
Proof.
  induction 1 as [|[k v] es Hv _ IH]; [reflexivity|].
  cbn [reduceOwn snd] in *. rewrite Hv, IH. apply mapReturned_append.
Qed.

Lemma atIndex_prefixed (f g : Value -> pkey -> outcome (list string))
  (mf mg : pkey -> outcome (list string)) (entries : list (string * Value))
  (index : nat) :
  Forall (fun kv => forall key, f (snd kv) key = mapReturned prefixed (g (snd kv) key))
    entries ->
  (forall key, mf key = mapReturned prefixed (mg key)) ->
  atIndex f mf index entries = mapReturned prefixed (atIndex g mg index entries).
Proof.
  intros Hall Hm. induction Hall as [|[k v] es Hv _ IH]; [apply Hm|].
  cbn [atIndex snd] in *. now destruct (String.eqb k (Num.digitsOfNat index)).
Qed.

Lemma reduceArrayLike_prefixed (f g : Value -> pkey -> outcome (list string))
  (mf mg : pkey -> outcome (list string)) (entries : list (string * Value))
  (count : nat) :
  Forall (fun kv => forall key, f (snd kv) key = mapReturned prefixed (g (snd kv) key))
    entries ->
  (forall key, mf key = mapReturned prefixed (mg key)) ->
  forall index,
    reduceArrayLike f mf entries count index =
    mapReturned prefixed (reduceArrayLike g mg entries count index).
Proof.
  intros Hall Hm. induction count as [|count IH]; intros index; [reflexivity|].
  cbn [reduceArrayLike]. rewrite (atIndex_prefixed f g mf mg entries index Hall Hm), IH.
  apply mapReturned_append.
Qed.

Lemma arrayPairs_prefixed (items : list Value) :
  Forall (fun x => forall k,
            buildKeyValuePairs options x k =
            mapReturned prefixed (buildKeyValuePairs bare x k)) items ->
  forall keyPath index,
    arrayPairs (buildKeyValuePairs options) options keyPath index items =
    mapReturned prefixed
      (arrayPairs (buildKeyValuePairs bare) bare keyPath index items).
Proof.
  induction 1 as [|x items Hx _ IH]; intros keyPath index; [reflexivity|].
  cbn [arrayPairs]. cbv zeta. rewrite IH, transformKey_bare.
  rewrite <- mapReturned_append. f_equal.
  destruct (Lodash.isObject x && negb (Lodash.isDate x)); [apply Hx|].
  unfold mapReturned. destruct (processValue x) as [w| |]; try reflexivity.
  cbn [bind prefixed map]. now rewrite addPrefix_bare, addPrefix_app.
Qed.

Lemma callbackMissing_prefixed (prefix key : pkey) :
  callbackMissing options prefix key =
  mapReturned prefixed (callbackMissing bare prefix key).
Proof.
  unfold callbackMissing. cbv zeta. rewrite shouldOmit_bare.
  destruct (shouldOmitValue _ _ options); [reflexivity|apply leafPair_prefixed].
Qed.

Lemma traversal_prefixed (v : Value) :
  (forall k,
     buildKeyValuePairs options v k =
     mapReturned prefixed (buildKeyValuePairs bare v k)) /\
  (forall prefix key,
     callback (buildKeyValuePairs options) options prefix v key =
     mapReturned prefixed (callback (buildKeyValuePairs bare) bare prefix v key)).
Proof.
  induction v as [items IH|entries IH|v Hv] using Value_induction.
  - split.
    + intros k. cbn [buildKeyValuePairs]. apply reduceArray_prefixed.
      revert IH. apply Forall_impl. intros x [_ Hq] key. apply Hq.
    + intros prefix key. unfold callback. cbv zeta. rewrite shouldOmit_bare.
      destruct (shouldOmitValue _ _ options); [reflexivity|].
      destruct items as [|x items]; [reflexivity|].
      apply arrayPairs_prefixed. revert IH. apply Forall_impl. now intros y [Hp _].
  - assert (HP : forall k,
               buildKeyValuePairs options (VObject entries) k =
               mapReturned prefixed (buildKeyValuePairs bare (VObject entries) k)).
    { intros k. cbn [buildKeyValuePairs].
      assert (Hall : Forall (fun kv => forall key,
                 callback (buildKeyValuePairs options) options k (snd kv) key =
                 mapReturned prefixed
                   (callback (buildKeyValuePairs bare) bare k (snd kv) key)) entries).
      { revert IH. apply Forall_impl. intros kv [_ Hq] key. apply Hq. }
      destruct (arrayLikeLength entries).
      - apply reduceArrayLike_prefixed; [exact Hall|].
        intros key. apply callbackMissing_prefixed.
      - now apply reduceOwn_prefixed. }
    split; [exact HP|].
    intros prefix key. unfold callback. cbv zeta. rewrite shouldOmit_bare.
    destruct (shouldOmitValue _ _ options); [reflexivity|].
    destruct entries as [|e entries]; [reflexivity|]. apply HP.
  - split.
    + intros k. destruct v as [| | | |[|c s]| | | | |]; try reflexivity;
        discriminate.
    + intros prefix key. unfold callback. cbv zeta. rewrite shouldOmit_bare.
      destruct (shouldOmitValue _ _ options); [reflexivity|].
      destruct v; try discriminate; apply leafPair_prefixed.
Qed.

End PrefixedPairs.

(** X13.  The prefix option does one thing to the pairs of [stringify]: it
    goes in front of each of them.  The traversal with a prefix returns the
    pairs of the traversal without it, each with the prefix added, and
    fails whenever that one fails. *)
Theorem buildKeyValuePairs_prefix_in_front (options : option QsOptions)
  (input : Value) (k : pkey) :
  buildKeyValuePairs options input k =
  mapReturned (map (fun pair => addPrefix pair options))
    (buildKeyValuePairs (withoutPrefix options) input k).
Proof.
  apply (traversal_prefixed options (withoutPrefix options));
    now destruct options.
Qed.

(** ** The round trip with a prefix *)






(** ** The shape of every pair *)

Section PairShape.

Variable options : option QsOptions.

Let Shaped (c : outcome (list string)) : Prop :=
  forall pairs, c = Returns pairs -> Forall (KeyValue) pairs.

Lemma shaped_append (a b : outcome (list string)) :
  Shaped a -> Shaped b ->
  Shaped (pairs <- a ;; others <- b ;; Returns (pairs ++ others)%list).
Proof.
  intros Ha Hb pairs. destruct a as [x| |]; try discriminate.
  cbn [bind]. destruct b as [y| |]; try discriminate.
  cbn [bind]. intros [= <-]. apply Forall_app. split; [now apply Ha|now apply Hb].
Qed.

Lemma shaped_nil : Shaped (Returns []).
Proof. intros pairs [= <-]. constructor. Qed.

Lemma shaped_value_pair (key : string) (v : Value) :
  Shaped (encoded <- processValue v ;; Returns [addPrefix key options ++ "=" ++ encoded]).
Proof.
  intros pairs. destruct (processValue v) as [w| |] eqn:E; try discriminate.
  cbn [bind]. intros [= <-]. constructor; [|constructor].
  exists (addPrefix key options), w. split; [reflexivity|].
  unfold processValue in E. destruct (Lodash.isNil v); [now injection E as <-|].
  revert E.
  match goal with
  | |- (x <- ?e ;; _) = _ -> _ => destruct e as [sv| |]; try discriminate
  end.
  cbn [bind]. intros [= <-].
  destruct (needsEncoding sv) eqn:En; [apply encoded_clean|exact En].
Qed.

Lemma leafPair_shaped (k : pkey) (v : Value) : Shaped (leafPair options k v).
Proof.
  unfold leafPair. destruct (transformKeyOf k options) as [t| |];
    try (intros pairs; discriminate).
  cbn [bind]. apply shaped_value_pair.
Qed.

Lemma reduceArray_shaped (f : Value -> pkey -> outcome (list string))
  (items : list Value) :
  Forall (fun x => forall key, Shaped (f x key)) items ->
  forall index, Shaped (reduceArray f index items).
Proof.
  induction 1 as [|x items Hx _ IH]; intros index; [apply shaped_nil|].
  cbn [reduceArray]. apply shaped_append; [apply Hx|apply IH].
Qed.

Lemma reduceOwn_shaped (f : Value -> pkey -> outcome (list string))
  (entries : list (string * Value)) :
  Forall (fun kv => forall key, Shaped (f (snd kv) key)) entries ->
  Shaped (reduceOwn f entries).
Proof.
  induction 1 as [|[k v] es Hv _ IH]; [apply shaped_nil|].
  cbn [reduceOwn]. apply shaped_append; [apply Hv|apply IH].
Qed.

Lemma atIndex_shaped (f : Value -> pkey -> outcome (list string))
  (missing : pkey -> outcome (list string)) (entries : list (string * Value))
  (index : nat) :
  Forall (fun kv => forall key, Shaped (f (snd kv) key)) entries ->
  (forall key, Shaped (missing key)) ->
  Shaped (atIndex f missing index entries).
Proof.
  intros Hall Hm. induction Hall as [|[k v] es Hv _ IH]; [apply Hm|].
  cbn [atIndex]. destruct (String.eqb k (Num.digitsOfNat index)); [apply Hv|apply IH].
Qed.

Lemma reduceArrayLike_shaped (f : Value -> pkey -> outcome (list string))
  (missing : pkey -> outcome (list string)) (entries : list (string * Value))
  (count : nat) :
  Forall (fun kv => forall key, Shaped (f (snd kv) key)) entries ->
  (forall key, Shaped (missing key)) ->
  forall index, Shaped (reduceArrayLike f missing entries count index).
Proof.
  intros Hall Hm. induction count as [|count IH]; intros index; [apply shaped_nil|].
  cbn [reduceArrayLike]. apply shaped_append; [now apply atIndex_shaped|apply IH].
Qed.

Lemma arrayPairs_shaped (items : list Value) :
  Forall (fun x => forall k, Shaped (buildKeyValuePairs options x k)) items ->
  forall keyPath index,
    Shaped (arrayPairs (buildKeyValuePairs options) options keyPath index items).
Proof.
  induction 1 as [|x items Hx _ IH]; intros keyPath index; [apply shaped_nil|].
  cbn [arrayPairs]. cbv zeta. apply shaped_append; [|apply IH].
  destruct (Lodash.isObject x && negb (Lodash.isDate x)); [apply Hx|].
  apply shaped_value_pair.
Qed.

Lemma traversal_shaped (v : Value) :
  (forall k, Shaped (buildKeyValuePairs options v k)) /\
  (forall prefix key,
     Shaped (callback (buildKeyValuePairs options) options prefix v key)).
Proof.
  induction v as [items IH|entries IH|v Hv] using Value_induction.
  - split.
    + intros k. cbn [buildKeyValuePairs]. apply reduceArray_shaped.
      revert IH. apply Forall_impl. intros x [_ Hq] key. apply Hq.
    + intros prefix key. unfold callback. cbv zeta.
      destruct (shouldOmitValue _ _ options); [apply shaped_nil|].
      destruct items as [|x items]; [apply shaped_nil|].
      apply arrayPairs_shaped. revert IH. apply Forall_impl. now intros y [Hp _].
  - assert (HP : forall k, Shaped (buildKeyValuePairs options (VObject entries) k)).
    { intros k. cbn [buildKeyValuePairs].
      assert (Hall : Forall (fun kv => forall key,
                 Shaped (callback (buildKeyValuePairs options) options k (snd kv) key))
                 entries).
      { revert IH. apply Forall_impl. intros kv [_ Hq] key. apply Hq. }
      destruct (arrayLikeLength entries).
      - apply reduceArrayLike_shaped; [exact Hall|].
        intros key. unfold callbackMissing. cbv zeta.
        destruct (shouldOmitValue _ _ options); [apply shaped_nil|apply leafPair_shaped].
      - now apply reduceOwn_shaped. }
    split; [exact HP|].
    intros prefix key. unfold callback. cbv zeta.
    destruct (shouldOmitValue _ _ options); [apply shaped_nil|].
    destruct entries as [|e entries]; [apply shaped_nil|]. apply HP.
  - split.
    + intros k. destruct v as [| | | |[|c s]| | | | |];
        try apply shaped_nil; discriminate.
    + intros prefix key. unfold callback. cbv zeta.
      destruct (shouldOmitValue _ _ options); [apply shaped_nil|].
      destruct v; try discriminate; apply leafPair_shaped.
Qed.

End PairShape.

(** X15.  Whatever the input and the options, every pair [stringify]
    collects is a key, an equals sign and a value text that holds none of
    [&], [=] and [#]: the last equals sign of a pair is its separator. *)
Theorem pairs_are_key_value (options : option QsOptions) (input : Value)
  (prefix : pkey) (pairs : list string) :
  buildKeyValuePairs options input prefix = Returns pairs ->
  Forall (KeyValue) pairs.
Proof. exact (proj1 (traversal_shaped options input) prefix pairs). Qed.

(** ** Repeated keys, values that are no mapping, and a listed policy *)

Lemma lookup_replace {A : Type} (k : string) (v : A) (es : list (string * A)) :
  Obj.lookup k es <> None -> Obj.lookup k (Obj.replace k v es) = Some v.
Proof.
  induction es as [|[k' v'] es IH]; cbn [Obj.lookup Obj.replace]; [congruence|].
  destruct (String.eqb k k') eqn:E; cbn [Obj.lookup]; rewrite E; [reflexivity|].
  exact IH.
Qed.

Lemma replace_replace {A : Type} (k : string) (v w : A) (es : list (string * A)) :
  Obj.replace k w (Obj.replace k v es) = Obj.replace k w es.
Proof.
  induction es as [|[k' v'] es IH]; [reflexivity|]. cbn [Obj.replace].
  destruct (String.eqb k k') eqn:E; cbn [Obj.replace]; rewrite E; [reflexivity|].
  now rewrite IH.
Qed.

Lemma insertIndexed_found {A : Type} (n : N) (k : string) (v : A)
  (es : list (string * A)) :
  Obj.lookup k es = None ->
  Obj.lookup k (Obj.insertIndexed n k v es) = Some v /\
  forall w, Obj.replace k w (Obj.insertIndexed n k v es) = Obj.insertIndexed n k w es.
Proof.
  induction es as [|[k' v'] es IH]; cbn [Obj.lookup Obj.insertIndexed Obj.replace].
  - rewrite String.eqb_refl. now split.
  - destruct (String.eqb k k') eqn:E; [discriminate|]. intros H.
    destruct (Obj.arrayIndex k') as [n'|].
    + destruct (n' <? n)%N; cbn [Obj.lookup Obj.replace].
      * rewrite E. destruct (IH H) as [H1 H2]. split; [exact H1|].
        intros w. now rewrite H2.
      * rewrite String.eqb_refl. now split.
    + cbn [Obj.lookup Obj.replace]. rewrite String.eqb_refl. now split.
Qed.

Lemma put_put {A : Type} (k : string) (v w : A) (es : list (string * A)) :
  Obj.put k w (Obj.put k v es) = Obj.put k w es.
Proof.
  unfold Obj.put at 2 3. destruct (Obj.lookup k es) as [x|] eqn:E.
  - unfold Obj.put. rewrite lookup_replace by congruence. apply replace_replace.
  - destruct (Obj.arrayIndex k) as [n|] eqn:En.
    + destruct (insertIndexed_found n k v es E) as [H1 H2].
      unfold Obj.put. now rewrite H1, H2.
    + now apply put_again.
Qed.

(** X16.  The last pair of a key wins: with no options, a pair whose key
    has no dot and no bracket replaces what an earlier pair of the same key
    wrote, at the place the earlier one took. *)
Theorem parse_last_pair_wins (k w1 w2 : string) (entries : list (string * Value)) :
  occurs "=" k = false -> occurs "." k = false -> occurs "[" k = false ->
  (reduction <- parseParam noOptions (VObject entries) (k ++ "=" ++ w1) ;;
   parseParam noOptions reduction (k ++ "=" ++ w2)) =
  parseParam noOptions (VObject entries) (k ++ "=" ++ w2).
Proof.
  intros Heq Hdot Hbr.
  assert (Hread : forall w acc,
            parseParam noOptions acc (k ++ "=" ++ w) =
            if JS.isEmptyString k then Returns acc
            else Lodash.set acc [k] (decodeValue (percentDecoded w))).
  { intros w acc. rewrite parseParam_reads. cbv zeta.
    change (k ++ "=" ++ w) with (k ++ String "=" w).
    destruct (before_app "=" k w Heq) as [-> ->].
    destruct (JS.isEmptyString k); [reflexivity|].
    change (prefixOf noOptions) with (@None string). cbv iota.
    change (reverseTransformKey (removePrefix k noOptions) noOptions) with k.
    unfold flatPathOf. rewrite (split_without "." k Hdot). cbn [map concat].
    rewrite (segmentPath_plain k Hbr). reflexivity. }
  rewrite !Hread. destruct (JS.isEmptyString k); [cbn [bind]; apply Hread|].
  unfold Lodash.set. cbn [Lodash.isObject Lodash.baseSet].
  destruct (Lodash.guardedKey k) eqn:Hg.
  - cbn [bind]. rewrite Hread.
    unfold Lodash.set. cbn [Lodash.isObject Lodash.baseSet]. now rewrite Hg.
  - cbn [Lodash.assignValue bind]. rewrite Hread.
    unfold Lodash.set. cbn [Lodash.isObject Lodash.baseSet]. rewrite Hg.
    cbn [Lodash.assignValue]. now rewrite put_put.
Qed.

(** X17.  A value with no own enumerable property and no characters gives
    the empty string, whatever the options: a Map, a Set, a Date, a number,
    a boolean, [null] and [undefined] are not traversed. *)
Theorem stringify_of_no_mapping (obj : Value) (options : option QsOptions) :
  isContainer obj = false ->
  (forall s, obj <> VString s) ->
  stringify obj options = Returns EmptyString.
Proof.
  intros Hc Hs. unfold stringify.
  destruct obj as [| | | |s| |items|entries|pairs|elems]; try discriminate;
    try reflexivity.
  - now contradiction (Hs s).
  - now destruct pairs.
  - now destruct elems.
Qed.

(** X18.  A list given as [omitValues] replaces the default policy: [null]
    is then written, with an empty value, unless the list holds it. *)
Theorem listed_policy_replaces_default (options : option QsOptions)
  (vs : list Value) (prefix : pkey) (k : string) :
  field omitValues options = Some (OmitList vs) ->
  existsb (Coll.sameValueZero VNull) vs = false ->
  exists key,
    transformKeyOf (keyPathOf prefix (KStr k)) options = Returns key /\
    callback (buildKeyValuePairs options) options prefix VNull (KStr k) =
    Returns [addPrefix key options ++ "="].
Proof.
  intros Ho Hv. unfold callback, shouldOmitValue. cbv zeta. rewrite Ho, Hv.
  unfold leafPair.
  assert (Hk : exists t, keyPathOf prefix (KStr k) = KStr t).
  { unfold keyPathOf. destruct (truthy prefix); now eexists. }
  destruct Hk as [t ->]. cbn [transformKeyOf]. eexists. split; [reflexivity|].
  reflexivity.
Qed.

(** ** Leaves that survive the value codec *)

Lemma endsWith_absent (c : ascii) (s : string) :
  occurs c s = false -> JS.endsWith s (String c EmptyString) = false.
Proof.
  induction s as [|a s IH]; [reflexivity|].
  rewrite occurs_cons. intros H. apply orb_false_iff in H as [Ha Hs].
  destruct s as [|b s].
  - unfold JS.endsWith. cbn [JS.rev_string]. rewrite startsWith_char.
    now rewrite Ascii.eqb_sym.
  - change (String a (String b s)) with (String a EmptyString ++ String b s).
    rewrite endsWith_app by discriminate. now apply IH.
Qed.

Lemma encoded_char_no_space (c : ascii) :
  occurs " " (Uri.encodeURIComponent (String c EmptyString)) = false.
Proof. destruct c as [[] [] [] [] [] [] [] []]; vm_compute; reflexivity. Qed.

Lemma encoded_no_space (s : string) :
  occurs " " (Uri.encodeURIComponent s) = false.
Proof.
  induction s as [|c s IH]; [reflexivity|].
  now rewrite encodeURIComponent_cons, occurs_app, encoded_char_no_space, IH.
Qed.

Lemma parseValue_word (fuel : nat) (c : ascii) (r : string) :
  wordStart c = true -> JsonParse.parseValue (S fuel) (String c r) = None.
Proof.
  destruct c as [[] [] [] [] [] [] [] []]; intros H; try discriminate H;
    reflexivity.
Qed.

Lemma decodeValue_word (c : ascii) (r : string) :
  wordStart c = true -> decodeValue (String c r) = VString (String c r).
Proof.
  intros H. unfold decodeValue, JsonParse.parse.
  change (2 * String.length (String c r) + 2)%nat
    with (S (String.length r + (S (String.length r) + 0) + 2)).
  rewrite (parseValue_word _ c r H).
  assert (Hm : JS.startsWith (String c r) "map(" = false /\
               JS.startsWith (String c r) "set(" = false).
  { clear - H. destruct c as [[] [] [] [] [] [] [] []]; try discriminate H;
      split; reflexivity. }
  destruct Hm as [-> ->]. reflexivity.
Qed.

(** X19.  An ordinary word survives the value codec, so that [parse] gives
    it back as the string it was: an ASCII string that starts with a letter
    other than [t], [f], [n], [m] and [s], does not end with a space, and
    holds no percent sign unless it holds one of [&], [=], [#]. *)
Theorem word_survives (s : string) :
  isAscii s = true ->
  startsWord s = true ->
  JS.endsWith s " " = false ->
  needsEncoding s = true \/ occurs "%" s = false ->
  survives (VString s).
Proof.
  intros Ha Hw He Hs. destruct s as [|c r]; [discriminate|].
  cbn [startsWord] in Hw. unfold survives, processValue.
  cbn [Lodash.isNil stringOf bind settled].
  destruct (needsEncoding (String c r)) eqn:E.
  - exists (Uri.encodeURIComponent (String c r)). split; [reflexivity|]. split.
    + apply endsWith_absent, encoded_no_space.
    + unfold percentDecoded, isEncoded. rewrite (decode_encoded _ Ha).
      destruct (String.eqb (String c r) (Uri.encodeURIComponent (String c r))) eqn:Eq.
      * apply String.eqb_eq in Eq. rewrite <- Eq. cbn [negb].
        now apply decodeValue_word.
      * cbn [negb]. now apply decodeValue_word.
  - exists (String c r). split; [reflexivity|]. split; [exact He|].
    destruct Hs as [Hs|Hs]; [discriminate|].
    unfold percentDecoded, isEncoded. rewrite (decode_without_percent _ Hs).
    rewrite String.eqb_refl. cbn [negb]. now apply decodeValue_word.
Qed.

Lemma allDigits_app (a b : string) :
  Num.allDigits (a ++ b) = Num.allDigits a && Num.allDigits b.
Proof.
  induction a as [|c a IH]; [reflexivity|].
  cbn [append Num.allDigits]. now rewrite IH, andb_assoc.
Qed.

Lemma zeros_allDigits (n : nat) : Num.allDigits (Num.zeros n) = true.
Proof. induction n as [|n IH]; [reflexivity|exact IH]. Qed.

Lemma digitsOfN_digits (n : N) :
  Num.allDigits (Num.digitsOfN n) = true /\ Num.digitsOfN n <> EmptyString.
Proof.
  unfold Num.digitsOfN. destruct (N.to_uint n) as [|d|d|d|d|d|d|d|d|d|d];
    (split; [|discriminate]); try reflexivity;
    cbn [NilZero.string_of_uint NilEmpty.string_of_uint Num.allDigits];
    apply uint_allDigits.
Qed.

Lemma pad_digits (width : nat) (n : Z) :
  Num.allDigits (Date.pad width n) = true /\ Date.pad width n <> EmptyString.
Proof.
  unfold Date.pad. destruct (digitsOfN_digits (Z.abs_N n)) as [Hd Hn].
  split.
  - now rewrite allDigits_app, zeros_allDigits, Hd.
  - destruct (Num.zeros _); [exact Hn|discriminate].
Qed.

Lemma occurs_app_false (c : ascii) (a b : string) :
  occurs c a = false -> occurs c b = false -> occurs c (a ++ b) = false.
Proof. intros Ha Hb. now rewrite occurs_app, Ha, Hb. Qed.

(** The ISO text of a date holds digits and the characters [- + T : . Z]
    only. *)
Lemma toISOString_without (c : ascii) (t : Z) :
  JS.isDigit c = false ->
  existsb (Ascii.eqb c) ["-"; "+"; "T"; ":"; "."; "Z"]%char = false ->
  occurs c (Date.toISOString t) = false.
Proof.
  intros Hd Hc. cbn [existsb] in Hc.
  repeat (apply orb_false_iff in Hc as [? Hc]).
  assert (Hpad : forall w n, occurs c (Date.pad w n) = false).
  { intros w n. apply allDigits_without; [exact Hd|apply pad_digits]. }
  assert (Hone : forall a, Ascii.eqb c a = false ->
                           occurs c (String a EmptyString) = false).
  { intros a Ha. rewrite occurs_cons, Ascii.eqb_sym, Ha. reflexivity. }
  unfold Date.toISOString. cbv zeta.
  destruct (Date.civil (t / 86400000)) as [[y m] d].
  repeat (apply occurs_app_false;
          [first [apply Hpad | now apply Hone | idtac]|]);
    [|now apply Hone].
  destruct ((0 <=? y)%Z && (y <=? 9999)%Z); [apply Hpad|].
  apply occurs_app_false; [|apply Hpad].
  destruct (y <? 0)%Z; now apply Hone.
Qed.

Lemma needsEncoding_occurs (s : string) :
  occurs "&" s = false -> occurs "=" s = false -> occurs "#" s = false ->
  needsEncoding s = false.
Proof.
  unfold needsEncoding. induction s as [|c s IH]; [reflexivity|].
  rewrite !occurs_cons. intros H1 H2 H3.
  apply orb_false_iff in H1 as [A1 B1]. apply orb_false_iff in H2 as [A2 B2].
  apply orb_false_iff in H3 as [A3 B3].
  cbn [JS.existsb_string]. unfold SPECIAL_CHARS at 1.
  now rewrite A1, A2, A3, (IH B1 B2 B3).
Qed.

Lemma spanDigits_stop (ds : string) (c : ascii) (rest : string) :
  Num.allDigits ds = true -> JS.isDigit c = false ->
  JsonParse.spanDigits (ds ++ String c rest) = (ds, String c rest).
Proof.
  intros Hd Hc. induction ds as [|d ds IH]; cbn [append JsonParse.spanDigits].
  - now rewrite Hc.
  - cbn [Num.allDigits] in Hd. apply andb_true_iff in Hd as [Hd Hds].
    now rewrite Hd, (IH Hds).
Qed.

Lemma lexTail_other (c : ascii) (r : string) :
  JS.isDigit c = true \/ c = "-"%char ->
  JsonParse.lexFraction (String c r) = Some (EmptyString, String c r) /\
  JsonParse.lexExponent (String c r) = Some (0%Z, String c r) /\
  JsonParse.isWs c = false.
Proof.
  intros [H| ->]; [|now repeat split].
  destruct c as [[] [] [] [] [] [] [] []]; try discriminate H; now repeat split.
Qed.

Lemma lexNumber_digits_dash (minus : bool) (ds rest : string) :
  Num.allDigits ds = true -> ds <> EmptyString ->
  exists n c r,
    JsonParse.lexNumber
      ((if minus then "-" else EmptyString) ++ ds ++ String "-" rest) =
    Some (n, String c r) /\
    JsonParse.isWs c = false.
Proof.
  intros Hd Hne. destruct ds as [|d ds]; [congruence|].
  pose proof Hd as Hall. cbn [Num.allDigits] in Hd.
  apply andb_true_iff in Hd as [Hd Hds].
  destruct (Ascii.eqb d "0") eqn:E0.
  - apply Ascii.eqb_eq in E0; subst d.
    assert (Hnext : exists c r, ds ++ String "-" rest = String c r /\
                                (JS.isDigit c = true \/ c = "-"%char)).
    { destruct ds as [|d' ds']; [now exists "-"%char, rest; split; [|right]|].
      cbn [Num.allDigits] in Hds. apply andb_true_iff in Hds as [Hd' _].
      exists d', (ds' ++ String "-" rest). split; [reflexivity|now left]. }
    destruct Hnext as (c & r & Heq & Hc).
    destruct (lexTail_other c r Hc) as (Hf & He & Hw).
    eexists _, c, r. split; [|exact Hw].
    destruct minus; cbn [append]; unfold JsonParse.lexNumber; cbv zeta;
      rewrite Heq, Hf, He; reflexivity.
  - destruct (lexTail_other "-" rest (or_intror eq_refl)) as (Hf & He & Hw).
    eexists _, "-"%char, rest. split; [|exact Hw].
    assert (Hspan := spanDigits_stop (String d ds) "-" rest Hall eq_refl).
    cbn [append] in Hspan.
    destruct minus; cbn [append]; unfold JsonParse.lexNumber;
      destruct d as [[] [] [] [] [] [] [] []]; try discriminate Hd;
      try discriminate E0; cbv zeta; rewrite Hspan; cbv iota beta;
      rewrite Hf, He; reflexivity.
Qed.

Lemma parseValue_number (fuel : nat) (c : ascii) (r : string) :
  JS.isDigit c = true \/ c = "-"%char ->
  JsonParse.parseValue (S fuel) (String c r) =
  match JsonParse.lexNumber (String c r) with
  | Some (n, r') => Some (VNumber n, r')
  | None => None
  end.
Proof.
  intros [H| ->]; [|reflexivity].
  destruct c as [[] [] [] [] [] [] [] []]; try discriminate H; reflexivity.
Qed.

Lemma parse_digits_dash (minus : bool) (ds rest : string) :
  Num.allDigits ds = true -> ds <> EmptyString ->
  JsonParse.parse ((if minus then "-" else EmptyString) ++ ds ++ String "-" rest) = None.
Proof.
  intros Hd Hne.
  destruct (lexNumber_digits_dash minus ds rest Hd Hne) as (n & c & r & Hlex & Hw).
  assert (Hhead : exists a text,
            (if minus then "-" else EmptyString) ++ ds ++ String "-" rest = String a text /\
            (JS.isDigit a = true \/ a = "-"%char)).
  { destruct minus; [now eexists _, _; split; [reflexivity|right]|].
    destruct ds as [|d ds]; [congruence|].
    cbn [Num.allDigits] in Hd. apply andb_true_iff in Hd as [Hd _].
    eexists _, _. split; [reflexivity|now left]. }
  destruct Hhead as (a & text & Heq & Ha). rewrite Heq in *.
  unfold JsonParse.parse.
  change (2 * String.length (String a text) + 2)%nat
    with (S (String.length text + (S (String.length text) + 0) + 2)).
  rewrite (parseValue_number _ a text Ha), Hlex.
  cbn [JsonParse.skipWs]. now rewrite Hw.
Qed.

Lemma parse_plus (text : string) : JsonParse.parse (String "+" text) = None.
Proof. reflexivity. Qed.

Lemma startsWith_other (a c : ascii) (p r : string) :
  Ascii.eqb a c = false -> JS.startsWith (String c r) (String a p) = false.
Proof. intros H. cbn [JS.startsWith]. now rewrite H. Qed.

Lemma decodeValue_unparsed (c : ascii) (r : string) :
  JsonParse.parse (String c r) = None ->
  Ascii.eqb "m" c = false -> Ascii.eqb "s" c = false ->
  decodeValue (String c r) = VString (String c r).
Proof.
  intros Hp Hm Hs. unfold decodeValue.
  rewrite (startsWith_other "m" c _ r Hm), (startsWith_other "s" c _ r Hs).
  cbn [andb]. now rewrite Hp.
Qed.

Lemma isDigit_differs (c a : ascii) :
  JS.isDigit c = true -> JS.isDigit a = false -> Ascii.eqb a c = false.
Proof.
  intros Hc Ha. destruct (Ascii.eqb a c) eqn:E; [|reflexivity].
  apply Ascii.eqb_eq in E. congruence.
Qed.

Lemma decodeValue_iso (t : Z) :
  decodeValue (Date.toISOString t) = VString (Date.toISOString t).
Proof.
  unfold Date.toISOString. cbv zeta.
  destruct (Date.civil (t / 86400000)) as [[y m] d].
  match goal with
  | |- decodeValue (_ ++ "-" ++ ?tail) = _ => generalize tail; intros rest
  end.
  change ("-" ++ rest) with (String "-" rest).
  destruct ((0 <=? y)%Z && (y <=? 9999)%Z).
  - destruct (pad_digits 4 y) as [Hd Hn].
    pose proof (parse_digits_dash false (Date.pad 4 y) rest Hd Hn) as Hp.
    cbn [append] in Hp.
    destruct (Date.pad 4 y) as [|a ds]; [congruence|].
    cbn [Num.allDigits] in Hd. apply andb_true_iff in Hd as [Ha _].
    cbn [append] in *.
    apply decodeValue_unparsed; [exact Hp| |]; now apply isDigit_differs.
  - destruct (pad_digits 6 y) as [Hd Hn]. destruct (y <? 0)%Z.
    + pose proof (parse_digits_dash true (Date.pad 6 y) rest Hd Hn) as Hp.
      cbn [append] in Hp. rewrite string_app_assoc. cbn [append].
      now apply decodeValue_unparsed.
    + rewrite string_app_assoc. cbn [append].
      apply decodeValue_unparsed; [apply parse_plus|reflexivity|reflexivity].
Qed.

(** X20.  Every valid date survives the value codec: its ISO text is
    written as it stands and [parse] reads it back as that text, not as a
    number or a wrapper. *)
Theorem date_survives (t : Z) : survives (VDate (Some t)).
Proof.
  assert (Hclean : forall c,
            JS.isDigit c = false ->
            existsb (Ascii.eqb c) ["-"; "+"; "T"; ":"; "."; "Z"]%char = false ->
            occurs c (Date.toISOString t) = false)
    by (intros c; apply toISOString_without).
  assert (Hneeds : needsEncoding (Date.toISOString t) = false)
    by (apply needsEncoding_occurs; now apply Hclean).
  exists (Date.toISOString t). split; [|split].
  - unfold processValue. cbn [Lodash.isNil bind]. now rewrite Hneeds.
  - apply endsWith_absent. now apply Hclean.
  - unfold percentDecoded, isEncoded.
    rewrite (decode_without_percent (Date.toISOString t)) by now apply Hclean.
    rewrite String.eqb_refl. cbn [negb settled]. apply decodeValue_iso.
Qed.

(** *** Integers *)

Lemma valueOfDigits_app (a b : string) (acc : N) :
  Num.valueOfDigits (a ++ b) acc = Num.valueOfDigits b (Num.valueOfDigits a acc).
Proof.
  revert acc. induction a as [|c a IH]; intros acc; [reflexivity|].
  cbn [append Num.valueOfDigits]. apply IH.
Qed.

Lemma valueOfDigits_zeros (j : nat) (acc : N) :
  Num.valueOfDigits (Num.zeros j) acc = (acc * 10 ^ N.of_nat j)%N.
Proof.
  revert acc. induction j as [|j IH]; intros acc.
  - cbn [Num.zeros Num.valueOfDigits]. change (N.of_nat 0) with 0%N.
    rewrite N.pow_0_r. lia.
  - cbn [Num.zeros Num.valueOfDigits]. rewrite IH, Nat2N.inj_succ, N.pow_succ_r'.
    change (Num.natOfDigit "0") with 0%N. lia.
Qed.

Lemma uint_value_pos (d : Decimal.uint) (acc : positive) :
  Num.valueOfDigits (NilEmpty.string_of_uint d) (N.pos acc) =
  N.pos (Pos.of_uint_acc d acc).
Proof.
  revert acc.
  induction d; intros acc;
    cbn [NilEmpty.string_of_uint Num.valueOfDigits Pos.of_uint_acc];
    [reflexivity| ..]; rewrite <- IHd; f_equal;
    match goal with
    | |- context [Num.natOfDigit ?c] =>
        let v := eval vm_compute in (Num.natOfDigit c) in
        change (Num.natOfDigit c) with v
    end; lia.
Qed.

Lemma uint_value_N (d : Decimal.uint) :
  Num.valueOfDigits (NilEmpty.string_of_uint d) 0 = N.of_uint d.
Proof.
  unfold N.of_uint.
  induction d; cbn [NilEmpty.string_of_uint Num.valueOfDigits Pos.of_uint];
    [reflexivity|exact IHd| ..];
    match goal with
    | |- context [Num.natOfDigit ?c] =>
        let v := eval vm_compute in (10 * 0 + Num.natOfDigit c)%N in
        change (10 * 0 + Num.natOfDigit c)%N with v
    end; apply uint_value_pos.
Qed.

Lemma digitsOfN_value (n : N) : Num.valueOfDigits (Num.digitsOfN n) 0 = n.
Proof.
  unfold Num.digitsOfN. rewrite <- (DecimalN.Unsigned.of_to n) at 2.
  rewrite <- uint_value_N. now destruct (N.to_uint n).
Qed.

Lemma digitsOfN_canonical (n : N) :
  Num.isCanonicalUint (Num.digitsOfN n) = true.
Proof.
  unfold Num.digitsOfN.
  rewrite <- (DecimalN.Unsigned.of_to n) at 1.
  rewrite DecimalN.Unsigned.to_of. apply unorm_canonical.
Qed.

(** The digits of a number that is not zero open with a digit that is not
    zero. *)
Lemma digitsOfN_head (m : N) :
  m <> 0%N ->
  exists d ds, Num.digitsOfN m = String d ds /\ Ascii.eqb d "0" = false.
Proof.
  intros Hm. pose proof (digitsOfN_canonical m) as Hc.
  pose proof (digitsOfN_value m) as Hv.
  destruct (Num.digitsOfN m) as [|d ds]; [discriminate|].
  exists d, ds. split; [reflexivity|].
  destruct (Ascii.eqb d "0") eqn:E; [|reflexivity].
  apply Ascii.eqb_eq in E; subst d.
  destruct ds as [|c ds]; [|discriminate Hc]. now contradiction Hm.
Qed.

Lemma valueOfDigits_lower (s : string) (acc : N) :
  (acc * 10 ^ N.of_nat (String.length s) <= Num.valueOfDigits s acc)%N.
Proof.
  revert acc. induction s as [|c s IH]; intros acc.
  - cbn [String.length Num.valueOfDigits]. change (N.of_nat 0) with 0%N.
    rewrite N.pow_0_r. lia.
  - cbn [String.length Num.valueOfDigits]. rewrite Nat2N.inj_succ, N.pow_succ_r'.
    specialize (IH (10 * acc + Num.natOfDigit c)%N). nia.
Qed.

Lemma natOfDigit_positive (d : ascii) :
  JS.isDigit d = true -> Ascii.eqb d "0" = false -> (1 <= Num.natOfDigit d)%N.
Proof.
  destruct d as [[] [] [] [] [] [] [] []]; intros H1 H2;
    try discriminate H1; try discriminate H2; vm_compute; discriminate.
Qed.

Lemma stripZeros_spec (fuel : nat) :
  forall m0 e0,
    m0 <> 0%N -> (m0 < 2 ^ N.of_nat fuel)%N ->
    exists m j,
      Num.stripZeros fuel m0 e0 = (m, (e0 + Z.of_nat j)%Z) /\
      m0 = (m * 10 ^ N.of_nat j)%N /\ (m mod 10)%N <> 0%N.
Proof.
  induction fuel as [|fuel IH]; intros m0 e0 Hne Hlt.
  - change (N.of_nat 0) with 0%N in Hlt. rewrite N.pow_0_r in Hlt. lia.
  - cbn [Num.stripZeros]. apply N.eqb_neq in Hne. rewrite Hne.
    apply N.eqb_neq in Hne.
    rewrite Nat2N.inj_succ, N.pow_succ_r' in Hlt.
    destruct (m0 mod 10 =? 0)%N eqn:E.
    + apply N.eqb_eq in E.
      pose proof (N.div_mod m0 10 ltac:(lia)) as Hdm. rewrite E in Hdm.
      destruct (IH (m0 / 10)%N (e0 + 1)%Z ltac:(lia) ltac:(lia))
        as (m & j & Hs & Hm & Hmod).
      exists m, (S j). split; [|split; [|exact Hmod]].
      * rewrite Hs. f_equal. lia.
      * rewrite Nat2N.inj_succ, N.pow_succ_r'. lia.
    + apply N.eqb_neq in E. exists m0, O. split; [|split; [|exact E]].
      * f_equal. lia.
      * change (N.of_nat 0) with 0%N. rewrite N.pow_0_r. lia.
Qed.

Lemma normalize_integer (neg : bool) (n : N) :
  n <> 0%N ->
  exists m j,
    Num.normalize neg n 0 = Finite neg m (Z.of_nat j) /\
    n = (m * 10 ^ N.of_nat j)%N /\ m <> 0%N.
Proof.
  intros Hn. unfold Num.normalize.
  destruct (stripZeros_spec (S (N.to_nat (N.log2 n))) n 0%Z Hn)
    as (m & j & Hs & Hm & Hmod).
  { rewrite Nat2N.inj_succ, N2Nat.id. apply N.log2_spec. lia. }
  exists m, j. rewrite Hs. split; [reflexivity|]. split; [exact Hm|].
  intros ->. now apply Hmod.
Qed.

Lemma toString_integer (neg : bool) (m : N) (j : nat) :
  m <> 0%N ->
  (Z.of_nat j + Z.of_nat (String.length (Num.digitsOfN m)) <= 21)%Z ->
  Num.toString (Finite neg m (Z.of_nat j)) =
  (if neg then "-" else EmptyString) ++ Num.digitsOfN m ++ Num.zeros j.
Proof.
  intros Hm Hk. unfold Num.toString. apply N.eqb_neq in Hm. rewrite Hm. cbv zeta.
  set (k := Z.of_nat (String.length (Num.digitsOfN m))) in *.
  assert (H1 : ((-5 <=? Z.of_nat j + k) && (Z.of_nat j + k <=? 21))%Z = true).
  { apply andb_true_iff. split; apply Z.leb_le; lia. }
  assert (H2 : (k <=? Z.of_nat j + k)%Z = true) by (apply Z.leb_le; lia).
  rewrite H1, H2.
  replace (Z.to_nat (Z.of_nat j + k - k)) with j by lia.
  now destruct neg.
Qed.

Lemma spanDigits_all (ds : string) :
  Num.allDigits ds = true -> JsonParse.spanDigits ds = (ds, EmptyString).
Proof.
  induction ds as [|d ds IH]; [reflexivity|]. cbn [Num.allDigits JsonParse.spanDigits].
  intros H. apply andb_true_iff in H as [Hd Hds]. now rewrite Hd, (IH Hds).
Qed.

Lemma lexNumber_integer (minus : bool) (d : ascii) (ds : string) :
  Num.allDigits (String d ds) = true -> Ascii.eqb d "0" = false ->
  JsonParse.lexNumber ((if minus then "-" else EmptyString) ++ String d ds) =
  Some (Num.normalize minus (Num.valueOfDigits (String d ds) 0) 0, EmptyString).
Proof.
  intros Hall H0. pose proof (spanDigits_all _ Hall) as Hspan.
  cbn [Num.allDigits] in Hall. apply andb_true_iff in Hall as [Hd _].
  assert (Hnil : forall x : string, x ++ EmptyString = x) by apply string_app_nil_r.
  destruct minus; cbn [append]; unfold JsonParse.lexNumber;
    destruct d as [[] [] [] [] [] [] [] []]; try discriminate Hd;
    try discriminate H0; cbv zeta; rewrite Hspan; cbv iota beta;
    cbn [JsonParse.lexFraction JsonParse.lexExponent String.length];
    rewrite Hnil; reflexivity.
Qed.

Lemma decodeValue_integer (minus : bool) (d : ascii) (ds : string) :
  Num.allDigits (String d ds) = true -> Ascii.eqb d "0" = false ->
  decodeValue ((if minus then "-" else EmptyString) ++ String d ds) =
  VNumber (Num.normalize minus (Num.valueOfDigits (String d ds) 0) 0).
Proof.
  intros Hall H0. pose proof (lexNumber_integer minus d ds Hall H0) as Hlex.
  cbn [Num.allDigits] in Hall. apply andb_true_iff in Hall as [Hd _].
  assert (Hhead : exists a text,
            (if minus then "-" else EmptyString) ++ String d ds = String a text /\
            (JS.isDigit a = true \/ a = "-"%char) /\
            Ascii.eqb "m" a = false /\ Ascii.eqb "s" a = false).
  { destruct minus; [eexists _, _; split; [reflexivity|now split; [right|]]|].
    eexists _, _. split; [reflexivity|].
    split; [now left|]. split; now apply isDigit_differs. }
  destruct Hhead as (a & text & Heq & Ha & Hm & Hs). rewrite Heq in *.
  unfold decodeValue.
  rewrite (startsWith_other "m" a _ text Hm), (startsWith_other "s" a _ text Hs).
  cbn [andb]. unfold JsonParse.parse.
  change (2 * String.length (String a text) + 2)%nat
    with (S (String.length text + (S (String.length text) + 0) + 2)).
  now rewrite (parseValue_number _ a text Ha), Hlex.
Qed.

(** The text of a safe integer: [processValue] leaves it as it is, and
    [parse] reads it as the number. *)
Lemma integer_text (z : Z) :
  (Z.abs z <= 9007199254740991)%Z ->
  needsEncoding (Num.toString (Num.ofZ z)) = false /\
  JS.endsWith (Num.toString (Num.ofZ z)) " " = false /\
  decodeValue (percentDecoded (Num.toString (Num.ofZ z))) = VNumber (Num.ofZ z).
Proof.
  intros Hz. unfold Num.ofZ.
  destruct (N.eq_dec (Z.abs_N z) 0) as [H0|Hn].
  - assert (z = 0%Z) by lia. subst z. now repeat split.
  - set (neg := (z <? 0)%Z). set (n := Z.abs_N z) in *.
    destruct (normalize_integer neg n Hn) as (m & j & Hnorm & Hval & Hm).
    destruct (digitsOfN_head m Hm) as (d & ds & Hs & Hd0).
    destruct (digitsOfN_digits m) as [Hall _].
    assert (Hbound : (Z.of_nat j + Z.of_nat (String.length (Num.digitsOfN m)) <= 21)%Z).
    { pose proof (digitsOfN_value m) as Hv. rewrite Hs in Hv, Hall |- *.
      cbn [Num.valueOfDigits String.length] in Hv |- *.
      pose proof (valueOfDigits_lower ds (10 * 0 + Num.natOfDigit d)) as Hlow.
      rewrite Hv in Hlow. cbn [Num.allDigits] in Hall.
      apply andb_true_iff in Hall as [Hd _].
      pose proof (natOfDigit_positive d Hd Hd0) as Hpos.
      assert (Hpow : (10 ^ (N.of_nat (String.length ds) + N.of_nat j) < 10 ^ 16)%N).
      { rewrite N.pow_add_r.
        assert (n <= 9007199254740991)%N by (unfold n; lia).
        change (10 ^ 16)%N with 10000000000000000%N. nia. }
      apply N.pow_lt_mono_r_iff in Hpow; lia. }
    pose proof (toString_integer neg m j Hm Hbound) as Htext.
    assert (Hdigits : Num.allDigits (Num.digitsOfN m ++ Num.zeros j) = true)
      by now rewrite allDigits_app, Hall, zeros_allDigits.
    assert (Hclean : forall c, JS.isDigit c = false -> Ascii.eqb c "-" = false ->
              occurs c ((if neg then "-" else EmptyString) ++
                        Num.digitsOfN m ++ Num.zeros j) = false).
    { intros c Hc Hminus. apply occurs_app_false.
      - destruct neg; [|reflexivity]. rewrite occurs_cons, Ascii.eqb_sym, Hminus.
        reflexivity.
      - now apply allDigits_without. }
    rewrite Hnorm, Htext. split; [|split].
    + apply needsEncoding_occurs; now apply Hclean.
    + apply endsWith_absent. now apply Hclean.
    + unfold percentDecoded, isEncoded.
      rewrite decode_without_percent by now apply Hclean.
      rewrite String.eqb_refl. cbn [negb].
      rewrite Hs in Hdigits |- *. cbn [append] in Hdigits |- *.
      rewrite (decodeValue_integer neg d (ds ++ Num.zeros j) Hdigits Hd0).
      f_equal. rewrite <- Hnorm. f_equal.
      change (String d (ds ++ Num.zeros j)) with (String d ds ++ Num.zeros j).
      rewrite <- Hs, valueOfDigits_app, digitsOfN_value, valueOfDigits_zeros.
      now rewrite Hval.
Qed.

(** X21.  Every safe integer survives the value codec: [parse] reads the
    text of the number back as the number. *)
Theorem integer_survives (z : Z) :
  (Z.abs z <= 9007199254740991)%Z -> survives (VNumber (Num.ofZ z)).
Proof.
  intros Hz. destruct (integer_text z Hz) as (Hn & He & Hd).
  exists (Num.toString (Num.ofZ z)). split; [|split; assumption].
  unfold processValue. cbn [Lodash.isNil stringOf bind]. now rewrite Hn.
Qed.

(** X22.  A string that is the text of a safe integer does not come back
    as a string: it is written as it stands, and [parse] reads the
    number. *)
Theorem numeric_string_becomes_number (z : Z) :
  (Z.abs z <= 9007199254740991)%Z ->
  exists w,
    processValue (VString (Num.toString (Num.ofZ z))) = Returns w /\
    decodeValue (percentDecoded w) = VNumber (Num.ofZ z).
Proof.
  intros Hz. destruct (integer_text z Hz) as (Hn & _ & Hd).
  exists (Num.toString (Num.ofZ z)). split; [|exact Hd].
  unfold processValue. cbn [Lodash.isNil stringOf bind]. now rewrite Hn.
Qed.

(** ** An array at the top level *)

(** X23.  With a case configured, [stringify] of an array whose first
    element is a leaf that is not omitted throws a [TypeError]: the key of
    the element is still a number when the key transform splits it. *)
Theorem stringify_array_with_case_throws (x : Value) (rest : list Value)
  (options : option QsOptions) (c : QsCase) :
  field case options = Some c ->
  isContainer x = false ->
  shouldOmitValue x (KNum 0) options = false ->
  stringify (VArray (x :: rest)) options = Throws TypeError.
Proof.
  intros Hc Hx Ho. unfold stringify. cbn [Lodash.isEmpty buildKeyValuePairs reduceArray].
  unfold callback at 1. change (keyPathOf (KStr EmptyString) (KNum 0)) with (KNum 0).
  cbv zeta. rewrite Ho.
  assert (Hleaf : leafPair options (KNum 0) x = Throws TypeError).
  { unfold leafPair. cbn [transformKeyOf]. now rewrite Hc. }
  destruct x; try discriminate Hx; now rewrite Hleaf.
Qed.

Lemma traversal_ignores_zero (options : option QsOptions) (input : Value) :
  buildKeyValuePairs options input (KNum 0) =
  buildKeyValuePairs options input (KStr EmptyString).
Proof. destruct input; reflexivity. Qed.

(** X24.  With no options, a mapping at index zero of an array handed to
    [stringify] is written as if it were the input itself: the index is a
    falsy prefix, so the keys of the mapping lose it. *)
Theorem stringify_first_element_loses_index (entries : list (string * Value)) :
  stringify (VArray [VObject entries]) noOptions =
  stringify (VObject entries) noOptions.
Proof.
  unfold stringify. destruct entries as [|e entries]; [reflexivity|].
  cbn [Lodash.isEmpty].
  change (buildKeyValuePairs noOptions (VArray [VObject (e :: entries)])
            (KStr EmptyString))
    with (pairs <- buildKeyValuePairs noOptions (VObject (e :: entries)) (KNum 0) ;;
          others <- Returns [] ;; Returns (pairs ++ others)%list).
  rewrite traversal_ignores_zero.
  destruct (buildKeyValuePairs noOptions (VObject (e :: entries)) (KStr EmptyString))
    as [pairs| |]; try reflexivity.
  cbn [bind]. now rewrite List.app_nil_r.
Qed.

End UseQs.

(** * The functions at work

    The examples below evaluate the module with the ASCII case converters. *)

Abbreviation parseA :=
  (parse AsciiCase.camelCase AsciiCase.snakeCase AsciiCase.kebabCase).
Abbreviation parseParamA :=
  (parseParam AsciiCase.camelCase AsciiCase.snakeCase AsciiCase.kebabCase).
Abbreviation stringifyA :=
  (stringify AsciiCase.camelCase AsciiCase.snakeCase AsciiCase.kebabCase).
Abbreviation buildKeyValuePairsA :=
  (buildKeyValuePairs AsciiCase.camelCase AsciiCase.snakeCase AsciiCase.kebabCase).
Abbreviation transformKeyA :=
  (transformKey AsciiCase.camelCase AsciiCase.snakeCase AsciiCase.kebabCase).
Abbreviation reverseTransformKeyA :=
  (reverseTransformKey AsciiCase.camelCase AsciiCase.snakeCase AsciiCase.kebabCase).

Definition withCase (c : QsCase) : option QsOptions :=
  Some (mkQsOptions None (Some c) None None None).


Definition withoutQueryPrefix : option QsOptions :=
  Some (mkQsOptions (Some false) None None None None).

Definition num (n : N) : Value := VNumber (Num.ofN n).

Definition tab : string := String (ascii_of_nat 9) EmptyString.

(** The text [map([["key1","value1"]])] *)
Definition mapWire : string :=
  "map([[" ++ Json.quote "key1" ++ "," ++ Json.quote "value1" ++ "]])".

(** The text [set(["value1","value2"])] *)
Definition setWire : string :=
  "set([" ++ Json.quote "value1" ++ "," ++ Json.quote "value2" ++ "])".



(** C4, the failing input: the second pair assigns [-1] to the length of the
    array the first pair created, which throws. *)
Lemma parse_throws_on_array_length :
  parseA "a[0]=1&a.length=-1" noOptions = Throws RangeError.
Proof. reflexivity. Qed.

(** C5, counterexample: a tab is not trimmed; it becomes a key. *)
Lemma parse_tab_is_not_empty :
  parseA tab noOptions = Returns (VObject [(tab, VString EmptyString)]) /\
  parseA tab noOptions <> Returns (VObject []).
Proof. split; [reflexivity | discriminate]. Qed.

(** C9, counterexample: a part that is an index group alone loses the
    group once a case is configured. *)
Lemma transform_drops_bare_index_group :
  transformKeyA "[0]" (withCase KebabCase) = EmptyString /\
  reverseTransformKeyA "[0]" (withCase KebabCase) = EmptyString /\
  transformKeyA "list.[0]" (withCase KebabCase) = "list.".
Proof. split; [reflexivity|]. split; reflexivity. Qed.

(** Witnesses *)




Lemma decodeValue_order_witness :
  decodeValue mapWire = VMap [(VString "key1", VString "value1")] /\
  decodeValue setWire = VSet [VString "value1"; VString "value2"] /\
  decodeValue "[1,2" = VString "[1,2".
Proof.
  split; [|split].
  - exact (proj1 (decodeValue_order mapWire) eq_refl).
  - exact (proj1 (proj2 (decodeValue_order setWire)) eq_refl eq_refl).
  - exact (proj2 (proj2 (decodeValue_order "[1,2")) eq_refl eq_refl).
Defined.

Lemma stringify_prefix_rule_witness :
  stringifyA (VObject [("a", VString "b")]) withoutQueryPrefix = Returns "a=b" /\
  stringifyA (VObject [("a", VString "b")]) noOptions = Returns "?a=b" /\
  stringifyA (VObject [("a", VNull)]) noOptions = Returns EmptyString.
Proof.
  split; [|split].
  - exact (stringify_prefix_rule AsciiCase.camelCase AsciiCase.snakeCase
             AsciiCase.kebabCase (VObject [("a", VString "b")])
             withoutQueryPrefix ["a=b"] eq_refl).
  - exact (stringify_prefix_rule AsciiCase.camelCase AsciiCase.snakeCase
             AsciiCase.kebabCase (VObject [("a", VString "b")])
             noOptions ["a=b"] eq_refl).
  - exact (stringify_prefix_rule AsciiCase.camelCase AsciiCase.snakeCase
             AsciiCase.kebabCase (VObject [("a", VNull)]) noOptions [] eq_refl).
Defined.



(** Witnesses of the further properties *)

Definition withOmitList (vs : list Value) : option QsOptions :=
  Some (mkQsOptions None None (Some (OmitList vs)) None None).

Lemma processValue_output_clean_witness :
  processValue (VString "a&b") = Returns "a%26b" /\
  needsEncoding "a%26b" = false.
Proof.
  split; [reflexivity|].
  exact (processValue_output_clean (VString "a&b") "a%26b" eq_refl).
Defined.

Lemma flatPathOf_dotted_witness :
  flatPathOf "user.address.city" = ["user"; "address"; "city"].
Proof. exact (flatPathOf_dotted "user.address.city" eq_refl). Defined.

Lemma parse_returns_mapping_witness :
  parseA "?a=1&b[0]=x" noOptions =
    Returns (VObject [("a", num 1); ("b", VArray [VString "x"])]) /\
  exists entries,
    VObject [("a", num 1); ("b", VArray [VString "x"])] = VObject entries.
Proof.
  split; [reflexivity|].
  exact (parse_returns_mapping AsciiCase.camelCase AsciiCase.snakeCase
           AsciiCase.kebabCase "?a=1&b[0]=x" noOptions _ eq_refl).
Defined.


Lemma stringify_array_like_witness :
  stringifyA (VObject [("length", num 2); ("name", VString "John")]) noOptions =
  Returns EmptyString.
Proof.
  apply (stringify_array_like_writes_nothing AsciiCase.camelCase
           AsciiCase.snakeCase AsciiCase.kebabCase
           [("length", num 2); ("name", VString "John")] 2 eq_refl).
  repeat constructor.
Defined.

Lemma stringify_throws_on_invalid_date_witness :
  stringifyA (VObject [("when", VDate None); ("a", num 1)]) noOptions =
  Throws RangeError.
Proof.
  exact (stringify_throws_on_invalid_date AsciiCase.camelCase AsciiCase.snakeCase
           AsciiCase.kebabCase "when" [("a", num 1)] noOptions eq_refl eq_refl).
Defined.

Lemma percentDecoded_without_percent_witness :
  percentDecoded "a+b" = "a+b".
Proof. exact (percentDecoded_without_percent "a+b" eq_refl). Defined.

Lemma string_text_decodes_back_witness :
  exists w, processValue (VString "a=b&c") = Returns w /\ percentDecoded w = "a=b&c".
Proof. exact (string_text_decodes_back "a=b&c" eq_refl (or_introl eq_refl)). Defined.



Lemma pairs_are_key_value_witness :
  Forall KeyValue ["a=1"; "b[0]=x"].
Proof.
  exact (pairs_are_key_value AsciiCase.camelCase AsciiCase.snakeCase
           AsciiCase.kebabCase noOptions
           (VObject [("a", num 1); ("b", VArray [VString "x"])])
           (KStr EmptyString) ["a=1"; "b[0]=x"] eq_refl).
Defined.

Lemma parse_last_pair_wins_witness :
  (reduction <- parseParamA noOptions (VObject [("b", num 0)]) "a=1" ;;
   parseParamA noOptions reduction "a=2") =
  parseParamA noOptions (VObject [("b", num 0)]) "a=2".
Proof.
  exact (parse_last_pair_wins AsciiCase.camelCase AsciiCase.snakeCase
           AsciiCase.kebabCase "a" "1" "2" [("b", num 0)] eq_refl eq_refl eq_refl).
Defined.

Lemma stringify_of_no_mapping_witness :
  stringifyA (VMap [(VString "k", num 1)]) noOptions = Returns EmptyString.
Proof.
  apply (stringify_of_no_mapping AsciiCase.camelCase AsciiCase.snakeCase
           AsciiCase.kebabCase); [reflexivity|discriminate].
Defined.

Lemma listed_policy_replaces_default_witness :
  exists key,
    transformKeyOf AsciiCase.camelCase AsciiCase.snakeCase AsciiCase.kebabCase
      (keyPathOf (KStr "user") (KStr "nick")) (withOmitList [VString EmptyString]) =
    Returns key /\
    callback AsciiCase.camelCase AsciiCase.snakeCase AsciiCase.kebabCase
      (buildKeyValuePairsA (withOmitList [VString EmptyString]))
      (withOmitList [VString EmptyString]) (KStr "user") VNull (KStr "nick") =
    Returns [addPrefix key (withOmitList [VString EmptyString]) ++ "="].
Proof.
  exact (listed_policy_replaces_default AsciiCase.camelCase AsciiCase.snakeCase
           AsciiCase.kebabCase (withOmitList [VString EmptyString])
           [VString EmptyString] (KStr "user") "nick" eq_refl eq_refl).
Defined.

Lemma word_survives_witness : survives (VString "John Doe").
Proof.
  apply word_survives; [reflexivity|reflexivity|reflexivity|now right].
Defined.

Lemma integer_survives_witness : survives (VNumber (Num.ofZ (-1200))).
Proof. apply integer_survives. vm_compute. discriminate. Defined.

Lemma numeric_string_becomes_number_witness :
  exists w,
    processValue (VString "42") = Returns w /\
    decodeValue (percentDecoded w) = VNumber (Num.ofZ 42).
Proof.
  apply (numeric_string_becomes_number 42). vm_compute. discriminate.
Defined.

Lemma stringify_array_with_case_throws_witness :
  stringifyA (VArray [VString "a"; VString "b"]) (withCase CamelCase) =
  Throws TypeError.
Proof.
  exact (stringify_array_with_case_throws AsciiCase.camelCase AsciiCase.snakeCase
           AsciiCase.kebabCase (VString "a") [VString "b"] (withCase CamelCase)
           CamelCase eq_refl eq_refl eq_refl).
Defined.
